(** * dev-events-nextjs: the Event and Booking models and the connection cache

    A shallow embedding of
      - [database/event.model.ts]   (slugify and the Event pre-save hook),
      - [database/booking.model.ts] (the Booking pre-save hook),
      - [lib/mongodb.ts]            (connectToDatabase and its global cache),
    followed by the properties the specification states about them.

    Strings.  A JavaScript string is a sequence of UTF-16 code units.  The
    model uses [string], whose characters stand for the code units 0..255;
    every character class the source names ([a-z], [0-9], [\d], [\s], [-],
    [:], [.], AM/PM) lies in that range.  Numbers that the source only uses
    as non-negative integers (counters, clock fields, [Date.now()]) are [N];
    time values of [Date] are [Z] (milliseconds since the epoch). *)

From Stdlib Require Import String Ascii List Finite Bool NArith ZArith Lia.
From Stdlib Require Import DecimalString DecimalN DecimalFacts.
Import ListNotations.

Local Open Scope string_scope.

(** ** The host language: string primitives *)

Module JS.

Definition code (c : ascii) : N := N_of_ascii c.

Definition between (lo hi : N) (c : ascii) : bool :=
  ((lo <=? code c) && (code c <=? hi))%N.

(** [\d] and the ranges [0-9], [a-z], [A-Z]. *)
Definition isDigit (c : ascii) : bool := between 48 57 c.
Definition isLower (c : ascii) : bool := between 97 122 c.
Definition isUpper (c : ascii) : bool := between 65 90 c.
Definition isHyphen (c : ascii) : bool := (code c =? 45)%N.

(** [\s], which is also what [trim] strips: TAB, LF, VT, FF, CR, SP and
    NBSP are the white space and line terminators below 256. *)
Definition isWhiteSpace (c : ascii) : bool :=
  (between 9 13 c || (code c =? 32) || (code c =? 160))%N.

(** [String.prototype.toLowerCase], one code unit at a time: A-Z, and the
    Latin-1 capitals U+00C0..U+00DE except the multiplication sign.  Code
    units above 255 are not represented; two of them, U+212A and U+0130,
    lower-case into [a-z], so what is proved about letters is stated on
    the lower-cased text. *)
Definition lowerChar (c : ascii) : ascii :=
  if isUpper c || (between 192 222 c && negb (code c =? 215)%N)
  then ascii_of_N (code c + 32)
  else c.

Fixpoint toLowerCase (s : string) : string :=
  match s with
  | EmptyString => EmptyString
  | String c s' => String (lowerChar c) (toLowerCase s')
  end.

(** [toUpperCase] on the letters a-z, which is all the source needs: it is
    applied to a matched AM/PM group and, through the [i] flag of the time
    pattern, to the characters compared with A, M and P. *)
Definition upperChar (c : ascii) : ascii :=
  if isLower c then ascii_of_N (code c - 32) else c.

Fixpoint toUpperCase (s : string) : string :=
  match s with
  | EmptyString => EmptyString
  | String c s' => String (upperChar c) (toUpperCase s')
  end.

Fixpoint trimStart (s : string) : string :=
  match s with
  | EmptyString => EmptyString
  | String c s' => if isWhiteSpace c then trimStart s' else s
  end.

Fixpoint trimEnd (s : string) : string :=
  match s with
  | EmptyString => EmptyString
  | String c s' =>
      match trimEnd s' with
      | EmptyString => if isWhiteSpace c then EmptyString else String c EmptyString
      | t => String c t
      end
  end.

Definition trim (s : string) : string := trimEnd (trimStart s).

(** [s.replace(/[^...]/g, "")]: the characters of the class are kept. *)
Fixpoint keep (p : ascii -> bool) (s : string) : string :=
  match s with
  | EmptyString => EmptyString
  | String c s' => if p c then String c (keep p s') else keep p s'
  end.

(** [s.replace(/X+/g, r)]: every maximal run of characters of the class [p]
    is replaced by [r].  [inRun] tells that the scan is inside a run whose
    replacement has been emitted already. *)
Fixpoint replaceRuns (p : ascii -> bool) (r : string) (inRun : bool)
    (s : string) : string :=
  match s with
  | EmptyString => EmptyString
  | String c s' =>
      if p c
      then (if inRun then replaceRuns p r true s'
            else r ++ replaceRuns p r true s')
      else String c (replaceRuns p r false s')
  end.

(** [String(n)] and [`${n}`] for a non-negative integer. *)
Definition String_of_N (n : N) : string :=
  NilEmpty.string_of_uint (N.to_uint n).

(** [Number(s)] for a string of decimal digits. *)
Definition digitValue (c : ascii) : N := (code c - 48)%N.

Fixpoint Number_from (acc : N) (s : string) : N :=
  match s with
  | EmptyString => acc
  | String c s' => Number_from (acc * 10 + digitValue c)%N s'
  end.

Definition Number_of_digits (s : string) : N := Number_from 0 s.

(** [s.padStart(width, "0")]. *)
Fixpoint zeros (n : nat) (s : string) : string :=
  match n with
  | O => s
  | S n' => String "0" (zeros n' s)
  end.

Definition padStart0 (width : nat) (s : string) : string :=
  zeros (width - String.length s) s.

(** [s.slice(0, n)]. *)
Fixpoint slice0 (n : nat) (s : string) : string :=
  match n, s with
  | S n', String c s' => String c (slice0 n' s')
  | _, _ => EmptyString
  end.

Fixpoint allChars (p : ascii -> bool) (s : string) : bool :=
  match s with
  | EmptyString => true
  | String c s' => p c && allChars p s'
  end.

Definition startsWith (p : ascii -> bool) (s : string) : bool :=
  match s with
  | String c _ => p c
  | EmptyString => false
  end.

End JS.

(** ** database/event.model.ts *)

Module EventModel.
Import JS.

(** The class [a-z0-9\-\s] of [slugify]. *)
Definition slugChar (c : ascii) : bool :=
  isLower c || isDigit c || isHyphen c || isWhiteSpace c.

Definition slugify (value : string) : string :=
  replaceRuns isHyphen "-" false
    (replaceRuns isWhiteSpace "-" false
       (keep slugChar (toLowerCase (trim value)))).

(** A thrown [Error] ends the hook; [Throw] carries its message. *)
Inductive Result (A : Type) : Type :=
| Ok (a : A)
| Throw (message : string).
Arguments Ok {A} a.
Arguments Throw {A} message.

Definition bind {A B : Type} (r : Result A) (k : A -> Result B) : Result B :=
  match r with
  | Ok a => k a
  | Throw m => Throw m
  end.

(** An [ObjectId] is kept as its 24-digit hexadecimal rendering, which is
    what [String(id)] returns and what [$ne] and [_id] queries compare. *)
Definition ObjectId : Type := string.

(** [IEvent & Document].  [modifiedPaths] and [isNew] are the part of
    Mongoose's change tracking that [isModified] reads. *)
Record EventDocument : Type := {
  _id : ObjectId;
  title : string;
  slug : string;
  description : string;
  overview : string;
  image : string;
  venue : string;
  location : string;
  date : string;
  time : string;
  mode : string;
  audience : string;
  agenda : list string;
  organizer : string;
  tags : list string;
  createdAt : option Z;
  updatedAt : option Z;
  isNew : bool;
  modifiedPaths : list string
}.

Definition isModified (doc : EventDocument) (path : string) : bool :=
  existsb (String.eqb path) (modifiedPaths doc).

(** Mongoose's setter marks a path as modified when the document is new or
    the value assigned differs from the one held ([changed]); a path already
    marked stays marked. *)
Definition markModified (path : string) (changed : bool)
    (d : EventDocument) : list string :=
  if isModified d path then modifiedPaths d
  else if isNew d || changed then path :: modifiedPaths d
  else modifiedPaths d.

(** The assignments [doc.slug = ...], [doc.date = ...], [doc.time = ...]
    made inside the hook, and [doc.title = ...] made by a caller. *)
Definition assign_slug (v : string) (d : EventDocument) : EventDocument :=
  {| _id := _id d; title := title d; slug := v;
     description := description d; overview := overview d; image := image d;
     venue := venue d; location := location d; date := date d; time := time d;
     mode := mode d; audience := audience d; agenda := agenda d;
     organizer := organizer d; tags := tags d; createdAt := createdAt d;
     updatedAt := updatedAt d; isNew := isNew d;
     modifiedPaths := markModified "slug" (negb (String.eqb v (slug d))) d |}.

Definition assign_date (v : string) (d : EventDocument) : EventDocument :=
  {| _id := _id d; title := title d; slug := slug d;
     description := description d; overview := overview d; image := image d;
     venue := venue d; location := location d; date := v; time := time d;
     mode := mode d; audience := audience d; agenda := agenda d;
     organizer := organizer d; tags := tags d; createdAt := createdAt d;
     updatedAt := updatedAt d; isNew := isNew d;
     modifiedPaths := markModified "date" (negb (String.eqb v (date d))) d |}.

Definition assign_time (v : string) (d : EventDocument) : EventDocument :=
  {| _id := _id d; title := title d; slug := slug d;
     description := description d; overview := overview d; image := image d;
     venue := venue d; location := location d; date := date d; time := v;
     mode := mode d; audience := audience d; agenda := agenda d;
     organizer := organizer d; tags := tags d; createdAt := createdAt d;
     updatedAt := updatedAt d; isNew := isNew d;
     modifiedPaths := markModified "time" (negb (String.eqb v (time d))) d |}.

Definition assign_title (v : string) (d : EventDocument) : EventDocument :=
  {| _id := _id d; title := v; slug := slug d;
     description := description d; overview := overview d; image := image d;
     venue := venue d; location := location d; date := date d; time := time d;
     mode := mode d; audience := audience d; agenda := agenda d;
     organizer := organizer d; tags := tags d; createdAt := createdAt d;
     updatedAt := updatedAt d; isNew := isNew d;
     modifiedPaths := markModified "title" (negb (String.eqb v (title d))) d |}.

(** What the hook reads from its host: the clock and the date parser.
    [Date_parse s] is the time value of [new Date(s)], [None] for NaN. *)
Record Host : Type := {
  Date_now : N;
  Date_parse : string -> option Z
}.

(** *** Slug generation *)

(** [Model.countDocuments({ slug: candidate, _id: { $ne: id } })] over the
    Event collection [db]. *)
Definition countDocuments (db : list EventDocument) (candidate : string)
    (id : ObjectId) : nat :=
  List.length
    (filter (fun d => String.eqb (slug d) candidate && negb (String.eqb (_id d) id))
       db).

(** The [while (true)] loop, one iteration per unit of [fuel]; [None] is a
    loop that has not ended within [fuel] iterations. *)
Fixpoint slugLoop (fuel : nat) (db : list EventDocument) (id : ObjectId)
    (base candidate : string) (i : N) : option string :=
  match fuel with
  | O => None
  | S fuel' =>
      let conflict := countDocuments db candidate id in
      if Nat.eqb conflict 0 then Some candidate
      else
        let i' := (i + 1)%N in
        slugLoop fuel' db id base (base ++ "-" ++ String_of_N i') i'
  end.

(** [base || `${Date.now()}`]. *)
Definition firstCandidate (h : Host) (base : string) : string :=
  if String.eqb base "" then String_of_N (Date_now h) else base.

(** The slug block of the hook.  The loop is given two more iterations than
    the collection has documents: [slugLoop_terminates] shows that it ends
    within them, and [slugLoop_more_fuel] that more would change nothing. *)
Definition slugStage (h : Host) (db : list EventDocument)
    (doc : EventDocument) : option EventDocument :=
  if isModified doc "title" then
    let base := slugify (title doc) in
    let candidate := firstCandidate h base in
    match slugLoop (List.length db + 2) db (_id doc) base candidate 0 with
    | Some c => Some (assign_slug c doc)
    | None => None
    end
  else Some doc.

(** *** Date normalization *)

(** [Date.prototype.toISOString] on a time value: the calendar fields of
    ECMA-262 ([Day], [TimeWithinDay], year, month and date from the day
    number) and their rendering.  Years 0..9999 take four digits, any other
    year a sign and six digits. *)
Definition msPerDay : Z := 86400000.
Definition Day (t : Z) : Z := (t / msPerDay)%Z.
Definition TimeWithinDay (t : Z) : Z := (t mod msPerDay)%Z.

(** Year, month (1..12) and day of the month of a day number counted from
    1970-01-01, in the proleptic Gregorian calendar. *)
Definition civilFromDays (z : Z) : Z * Z * Z :=
  (let z := z + 719468 in
   let era := z / 146097 in
   let doe := z - era * 146097 in
   let yoe := (doe - doe / 1460 + doe / 36524 - doe / 146096) / 365 in
   let doy := doe - (365 * yoe + yoe / 4 - yoe / 100) in
   let mp := (5 * doy + 2) / 153 in
   let d := doy - (153 * mp + 2) / 5 + 1 in
   let m := if mp <? 10 then mp + 3 else mp - 9 in
   let y := yoe + era * 400 + (if m <=? 2 then 1 else 0) in
   (y, m, d))%Z.

Definition digitsOfZ (width : nat) (n : Z) : string :=
  padStart0 width (String_of_N (Z.to_N n)).

Definition isoYear (y : Z) : string :=
  if ((0 <=? y) && (y <=? 9999))%Z then digitsOfZ 4 y
  else if (y <? 0)%Z then "-" ++ digitsOfZ 6 (- y)
  else "+" ++ digitsOfZ 6 y.

Definition toISOString (t : Z) : string :=
  let '(y, m, d) := civilFromDays (Day t) in
  let w := TimeWithinDay t in
  isoYear y ++ "-" ++ digitsOfZ 2 m ++ "-" ++ digitsOfZ 2 d ++ "T"
    ++ digitsOfZ 2 (w / 3600000) ++ ":" ++ digitsOfZ 2 ((w / 60000) mod 60)
    ++ ":" ++ digitsOfZ 2 ((w / 1000) mod 60) ++ "."
    ++ digitsOfZ 3 (w mod 1000) ++ "Z".

(** The date block of the hook, on the field. *)
Definition normalizeDate (h : Host) (date : string) : Result string :=
  match Date_parse h date with
  | None => Throw "Invalid date format; expected a valid date"
  | Some parsed => Ok (slice0 10 (toISOString parsed))
  end.

Definition dateStage (h : Host) (doc : EventDocument) : Result EventDocument :=
  if isModified doc "date" then
    bind (normalizeDate h (date doc)) (fun v => Ok (assign_date v doc))
  else Ok doc.

(** *** Time normalization *)

(** [timeRegex] is [/^(\d{1,2})(?:[:\.](\d{2}))?(?:\s*(AM|PM))?$/i], read as
    a backtracking matcher: every quantified piece takes a continuation for
    the rest of the pattern, tries its greedy alternative first and falls
    back to the shorter one when the continuation fails. *)
Definition orElse {A : Type} (x y : option A) : option A :=
  match x with
  | Some _ => x
  | None => y
  end.

Section Matcher.
Variable R : Type.

(** [(\d{1,2})] *)
Definition digits12 (s : string) (k : string -> string -> option R) : option R :=
  match s with
  | String a s1 =>
      if isDigit a then
        orElse
          match s1 with
          | String b s2 =>
              if isDigit b then k (String a (String b "")) s2 else None
          | EmptyString => None
          end
          (k (String a "") s1)
      else None
  | EmptyString => None
  end.

Definition isSeparator (c : ascii) : bool :=
  (code c =? 58)%N || (code c =? 46)%N.

(** [(?:[:\.](\d{2}))?] *)
Definition optMinutes (s : string) (k : option string -> string -> option R)
    : option R :=
  orElse
    match s with
    | String c (String a (String b s3)) =>
        if isSeparator c && isDigit a && isDigit b
        then k (Some (String a (String b ""))) s3
        else None
    | _ => None
    end
    (k None s).

(** [\s*] *)
Fixpoint whiteSpaces (s : string) (k : string -> option R) : option R :=
  match s with
  | String c s' =>
      if isWhiteSpace c then orElse (whiteSpaces s' k) (k s) else k s
  | EmptyString => k EmptyString
  end.

(** Under the [i] flag a character matches a letter of the pattern when
    both have the same upper case. *)
Definition sameLetter (c pattern : ascii) : bool :=
  Ascii.eqb (upperChar c) (upperChar pattern).

(** [(AM|PM)] *)
Definition meridiemGroup (s : string) (k : string -> string -> option R)
    : option R :=
  match s with
  | String a (String b s2) =>
      orElse
        (if sameLetter a "A" && sameLetter b "M"
         then k (String a (String b "")) s2 else None)
        (if sameLetter a "P" && sameLetter b "M"
         then k (String a (String b "")) s2 else None)
  | _ => None
  end.

(** [(?:\s*(AM|PM))?] *)
Definition optMeridiem (s : string) (k : option string -> string -> option R)
    : option R :=
  orElse
    (whiteSpaces s (fun s1 => meridiemGroup s1 (fun m s2 => k (Some m) s2)))
    (k None s).

End Matcher.

(** [t.match(timeRegex)]: the groups 1, 2 and 3 of the match. *)
Definition timeRegex (t : string)
    : option (string * option string * option string) :=
  digits12 _ t (fun m1 s1 =>
    optMinutes _ s1 (fun m2 s2 =>
      optMeridiem _ s2 (fun m3 s3 =>
        match s3 with
        | EmptyString => Some (m1, m2, m3)
        | _ => None
        end))).

(** [hours] after the two meridiem adjustments. *)
Definition applyMeridiem (meridiem : option string) (hours : N) : N :=
  match meridiem with
  | Some meridiem =>
      let ampm := toUpperCase meridiem in
      let hours :=
        if String.eqb ampm "PM" && (hours <? 12)%N then (hours + 12)%N
        else hours in
      if String.eqb ampm "AM" && (hours =? 12)%N then 0%N else hours
  | None => hours
  end.

(** [hours] and [minutes] as the hook leaves them before its range check;
    [None] is [null]. *)
Definition clockFields (t : string) : option (N * N) :=
  match timeRegex t with
  | Some (m1, m2, m3) =>
      let hours := Number_of_digits m1 in
      let minutes :=
        match m2 with
        | Some d => Number_of_digits d
        | None => 0%N
        end in
      Some (applyMeridiem m3 hours, minutes)
  | None => None
  end.

Definition invalidTime : string :=
  "Invalid time format; expected HH:MM or a common human time format".

(** The time block of the hook, on the field. *)
Definition normalizeTime (time : string) : Result string :=
  let t := trim time in
  match clockFields t with
  | None => Throw invalidTime
  | Some (hours, minutes) =>
      if (hours <? 0)%N || (23 <? hours)%N || (minutes <? 0)%N
         || (59 <? minutes)%N
      then Throw invalidTime
      else
        let hh := padStart0 2 (String_of_N hours) in
        let mm := padStart0 2 (String_of_N minutes) in
        Ok (hh ++ ":" ++ mm)
  end.

Definition timeStage (doc : EventDocument) : Result EventDocument :=
  if isModified doc "time" then
    bind (normalizeTime (time doc)) (fun v => Ok (assign_time v doc))
  else Ok doc.

(** *** The pre-save hook and the save around it *)

(** [EventSchema.pre("save", ...)]: [None] only if the slug loop did not
    end, [Some (Throw _)] when the hook throws, [Some (Ok doc')] with the
    document as the hook leaves it. *)
Definition pre_save (h : Host) (db : list EventDocument)
    (doc : EventDocument) : option (Result EventDocument) :=
  match slugStage h db doc with
  | None => None
  | Some doc1 => Some (bind (dateStage h doc1) timeStage)
  end.

(** What [doc.save()] does around the hook: the document as left by the
    hook replaces the stored document of the same [_id] (or is inserted),
    and its change tracking is reset.  Schema validators and the unique
    index are not part of this model. *)
Definition stored (doc : EventDocument) : EventDocument :=
  {| _id := _id doc; title := title doc; slug := slug doc;
     description := description doc; overview := overview doc;
     image := image doc; venue := venue doc; location := location doc;
     date := date doc; time := time doc; mode := mode doc;
     audience := audience doc; agenda := agenda doc;
     organizer := organizer doc; tags := tags doc;
     createdAt := createdAt doc; updatedAt := updatedAt doc;
     isNew := false; modifiedPaths := [] |}.

Definition persist (doc : EventDocument) (db : list EventDocument)
    : list EventDocument :=
  stored doc :: filter (fun d => negb (String.eqb (_id d) (_id doc))) db.

Definition save (h : Host) (db : list EventDocument) (doc : EventDocument)
    : option (Result (list EventDocument * EventDocument)) :=
  match pre_save h db doc with
  | None => None
  | Some (Throw m) => Some (Throw m)
  | Some (Ok doc') => Some (Ok (persist doc' db, stored doc'))
  end.

(** *** Schema validators *)

(** [nonEmptyString.validator], on a string. *)
Definition nonEmptyString (v : string) : bool :=
  Nat.ltb 0 (String.length (trim v)).

(** The validator of [agenda] and of [tags], on an array. *)
Definition nonEmptyArray (v : list string) : bool :=
  Nat.ltb 0 (List.length v).

End EventModel.

(** ** database/booking.model.ts *)

Module BookingModel.
Import EventModel.

(** [IBooking & Document]; [eventId] is an [ObjectId] of the Event
    collection. *)
Record BookingDocument : Type := {
  eventId : ObjectId;
  email : string;
  createdAt : option Z;
  updatedAt : option Z
}.

(** [Event.exists({ _id: id })] over the Event collection. *)
Definition Event_exists (events : list EventDocument) (id : ObjectId) : bool :=
  existsb (fun e => String.eqb (_id e) id) events.

Section Hook.

(** [Types.ObjectId.isValid], the driver's syntactic test on
    [String(doc.eventId)]. *)
Variable ObjectId_isValid : string -> bool.

(** [BookingSchema.pre("save", ...)]. *)
Definition pre_save (events : list EventDocument) (doc : BookingDocument)
    : Result unit :=
  if negb (ObjectId_isValid (eventId doc)) then Throw "Invalid eventId"
  else if negb (Event_exists events (eventId doc))
       then Throw "Referenced event does not exist"
       else Ok tt.

End Hook.

(** The driver's rule for strings: 24 hexadecimal digits. *)
Definition isHexDigit (c : ascii) : bool :=
  JS.isDigit c || JS.between 97 102 c || JS.between 65 70 c.

Definition hex24 (s : string) : bool :=
  Nat.eqb (String.length s) 24 && JS.allChars isHexDigit s.

(** [emailRegex] is [/^[^\s@]+@[^\s@]+\.[^\s@]+$/], read as a backtracking
    matcher like [timeRegex]. *)
Definition emailChar (c : ascii) : bool :=
  negb (JS.isWhiteSpace c || (JS.code c =? 64)%N).

Section EmailMatcher.
Variable R : Type.

(** [[^\s@]+]: at least one character of the class, as many as the rest of
    the pattern allows. *)
Fixpoint emailChars (s : string) (k : string -> option R) : option R :=
  match s with
  | String c s' =>
      if emailChar c then orElse (emailChars s' k) (k s') else None
  | EmptyString => None
  end.

(** One given character. *)
Definition literal (ch : ascii) (s : string) (k : string -> option R)
    : option R :=
  match s with
  | String c s' => if Ascii.eqb c ch then k s' else None
  | EmptyString => None
  end.

End EmailMatcher.

(** [emailRegex.test(v)]. *)
Definition emailRegex (v : string) : bool :=
  match
    emailChars unit v (fun s1 =>
      literal unit "@" s1 (fun s2 =>
        emailChars unit s2 (fun s3 =>
          literal unit "." s3 (fun s4 =>
            emailChars unit s4 (fun s5 =>
              match s5 with
              | EmptyString => Some tt
              | _ => None
              end)))))
  with
  | Some _ => true
  | None => false
  end.

End BookingModel.

(** ** lib/mongodb.ts *)

Module Mongodb.

(** The connected Mongoose instance and the reason of a failed attempt. *)
Definition MongooseType : Type := nat.
Definition Reason : Type := string.

Inductive PromiseState : Type :=
| Pending
| Fulfilled (instance : MongooseType)
| Rejected (reason : Reason).

(** [global._mongooseCache]; [promise] refers to a cell of [promises]. *)
Record MongooseCache : Type := {
  conn : option MongooseType;
  promise : option nat
}.

(** The process: the cache, the promises created by
    [mongoose.connect(...).then(...)] in creation order, and the number of
    calls of [mongoose.connect] made so far. *)
Record World : Type := {
  cache : MongooseCache;
  promises : list PromiseState;
  attempts : nat
}.

(** The module has been loaded: [{ conn: null, promise: null }]. *)
Definition initial : World :=
  {| cache := {| conn := None; promise := None |};
     promises := [];
     attempts := 0 |}.

(** What a call of [connectToDatabase] has reached when it suspends or
    returns: the cached instance, or an [await] on a promise. *)
Inductive CallResult : Type :=
| Returns (instance : MongooseType)
| Awaits (p : nat).

(** The synchronous part of [connectToDatabase]. *)
Definition connectToDatabase (w : World) : World * CallResult :=
  match conn (cache w) with
  | Some c => (w, Returns c)
  | None =>
      match promise (cache w) with
      | Some p => (w, Awaits p)
      | None =>
          let p := List.length (promises w) in
          ({| cache := {| conn := None; promise := Some p |};
              promises := promises w ++ [Pending];
              attempts := S (attempts w) |},
           Awaits p)
      end
  end.

(** How an attempt of [mongoose.connect] ends. *)
Inductive Outcome : Type :=
| Connected (instance : MongooseType)
| Failed (reason : Reason).

Fixpoint setNth {A : Type} (n : nat) (x : A) (l : list A) : list A :=
  match l, n with
  | [], _ => []
  | _ :: l', O => x :: l'
  | y :: l', S n' => y :: setNth n' x l'
  end.

(** The attempt behind promise [p] ends.  On success the [then] callback
    stores the instance in [cache.conn] and the promise is fulfilled with
    it; on failure the callback does not run and the promise is rejected.
    A promise settles once. *)
Definition settle (p : nat) (o : Outcome) (w : World) : World :=
  match nth_error (promises w) p with
  | Some Pending =>
      match o with
      | Connected m =>
          {| cache := {| conn := Some m; promise := promise (cache w) |};
             promises := setNth p (Fulfilled m) (promises w);
             attempts := attempts w |}
      | Failed e =>
          {| cache := cache w;
             promises := setNth p (Rejected e) (promises w);
             attempts := attempts w |}
      end
  | _ => w
  end.

(** What the promise returned by a call of [connectToDatabase] has become
    in world [w]: [return await p] settles as [p] does. *)
Definition resultIn (w : World) (r : CallResult) : PromiseState :=
  match r with
  | Returns m => Fulfilled m
  | Awaits p => nth p (promises w) Pending
  end.

(** The events of a run: a caller enters [connectToDatabase], or an
    attempt ends. *)
Inductive Event : Type :=
| Call
| Settle (p : nat) (o : Outcome).

Definition step (e : Event) (w : World) : World :=
  match e with
  | Call => fst (connectToDatabase w)
  | Settle p o => settle p o w
  end.

Definition run (trace : list Event) (w : World) : World :=
  fold_left (fun w e => step e w) trace w.

(** The attempts in flight. *)
Definition isPending (s : PromiseState) : bool :=
  match s with
  | Pending => true
  | _ => false
  end.

Definition inFlight (w : World) : nat :=
  List.length (filter isPending (promises w)).

(** What every reachable world satisfies: the cache has no promise and
    nothing was ever attempted, or it refers to the one promise there is. *)
Definition Invariant (w : World) : Prop :=
  match promise (cache w) with
  | None => promises w = [] /\ attempts w = 0
  | Some p => p = 0 /\ List.length (promises w) = 1 /\ attempts w = 1
  end.

(** [cache.conn] holds an instance exactly when the promise has been
    fulfilled with it. *)
Definition Consistent (w : World) : Prop :=
  match conn (cache w) with
  | Some m => promises w = [Fulfilled m]
  | None => forall m, ~ In (Fulfilled m) (promises w)
  end.

Definition isCall (e : Event) : bool :=
  match e with
  | Call => true
  | Settle _ _ => false
  end.

(** The body of the module, run at every load: it throws when
    [MONGODB_URI] is undefined or empty, and creates the cache only when
    [global._mongooseCache] is not there.  [None] is an undefined value. *)
Definition missingUri : string :=
  "Please define the MONGODB_URI environment variable inside .env.local".

Definition loadModule (MONGODB_URI : option string) (global : option World)
    : EventModel.Result World :=
  match MONGODB_URI with
  | None => EventModel.Throw missingUri
  | Some uri =>
      if String.eqb uri "" then EventModel.Throw missingUri
      else
        match global with
        | Some w => EventModel.Ok w
        | None => EventModel.Ok initial
        end
  end.

(** A process that loads the module, runs a trace, reloads the module,
    runs the next trace, and so on; the global object outlives the
    reloads. *)
Fixpoint runSessions (MONGODB_URI : option string)
    (sessions : list (list Event)) (global : option World)
    : EventModel.Result (option World) :=
  match sessions with
  | [] => EventModel.Ok global
  | trace :: rest =>
      match loadModule MONGODB_URI global with
      | EventModel.Throw m => EventModel.Throw m
      | EventModel.Ok w => runSessions MONGODB_URI rest (Some (run trace w))
      end
  end.

End Mongodb.

(** ** The vocabulary of the specification *)

Module Vocabulary.
Import JS EventModel.

(** Lowercase letters, digits and hyphens: the URL-safe characters. *)
Definition urlSafe (c : ascii) : bool := isLower c || isDigit c || isHyphen c.

Definition startsWithHyphen (s : string) : bool :=
  match s with
  | String c _ => isHyphen c
  | EmptyString => false
  end.

Fixpoint endsWithHyphen (s : string) : bool :=
  match s with
  | EmptyString => false
  | String c EmptyString => isHyphen c
  | String _ s' => endsWithHyphen s'
  end.

Fixpoint hasDoubleHyphen (s : string) : bool :=
  match s with
  | EmptyString => false
  | String c s' => (isHyphen c && startsWithHyphen s') || hasDoubleHyphen s'
  end.

(** The candidate tried at counter [k]: the first candidate at 0, then
    [base-k]. *)
Definition candidateAt (first base : string) (k : N) : string :=
  if (k =? 0)%N then first else base ++ "-" ++ String_of_N k.

(** The candidate tested by the [j]-th iteration of a loop entered with
    candidate [cand] and counter [i]. *)
Definition candidateFrom (base cand : string) (i : N) (j : nat) : string :=
  match j with
  | O => cand
  | S _ => base ++ "-" ++ String_of_N (i + N.of_nat j)
  end.

(** A candidate is free for a document when no other record uses it. *)
Definition free (db : list EventDocument) (id : ObjectId) (c : string) : Prop :=
  countDocuments db c id = 0.

(** A time text cut into its pieces: the hour digits, the separator with
    the minute digits, the white space with the meridiem letters. *)
Record TimeText : Type := {
  hourText : string;
  minuteText : option (ascii * string);
  meridiemText : option (string * string)
}.

Definition minuteTail (m : option (ascii * string)) : string :=
  match m with
  | Some (sep, mm) => String sep mm
  | None => ""
  end.

Definition meridiemTail (x : option (string * string)) : string :=
  match x with
  | Some (gap, letters) => gap ++ letters
  | None => ""
  end.

Definition render (p : TimeText) : string :=
  hourText p ++ minuteTail (minuteText p) ++ meridiemTail (meridiemText p).

Definition oneOrTwoDigits (s : string) : bool :=
  match s with
  | String a EmptyString => isDigit a
  | String a (String b EmptyString) => isDigit a && isDigit b
  | _ => false
  end.

Definition twoDigits (s : string) : bool :=
  match s with
  | String a (String b EmptyString) => isDigit a && isDigit b
  | _ => false
  end.

(** AM or PM in any letter case. *)
Definition isMeridiem (s : string) : bool :=
  String.eqb (toUpperCase s) "AM" || String.eqb (toUpperCase s) "PM".

Definition minuteOk (m : option (ascii * string)) : bool :=
  match m with
  | Some (sep, mm) => isSeparator sep && twoDigits mm
  | None => true
  end.

Definition meridiemOk (x : option (string * string)) : bool :=
  match x with
  | Some (gap, letters) => allChars isWhiteSpace gap && isMeridiem letters
  | None => true
  end.

(** The shape the hook accepts: one or two hour digits, optionally a colon
    or a dot with two minute digits, optionally white space and AM/PM. *)
Definition wellFormed (p : TimeText) : bool :=
  oneOrTwoDigits (hourText p) && minuteOk (minuteText p)
  && meridiemOk (meridiemText p).

(** The shapes the specification lists: H, HH, H:MM, HH:MM and H.MM; a dot
    goes with a single hour digit. *)
Definition listed (p : TimeText) : bool :=
  match minuteText p with
  | Some (sep, _) =>
      if (code sep =? 46)%N then Nat.eqb (String.length (hourText p)) 1
      else true
  | None => true
  end.

Definition ListedShape (t : string) : Prop :=
  exists p, wellFormed p = true /\ listed p = true /\ t = render p.

(** The hour after the 12-hour to 24-hour conversion, and the minutes. *)
Definition hour24 (p : TimeText) : N :=
  let h := Number_of_digits (hourText p) in
  match meridiemText p with
  | None => h
  | Some (_, letters) =>
      if String.eqb (toUpperCase letters) "PM"
      then (if (h <? 12)%N then (h + 12)%N else h)
      else (if (h =? 12)%N then 0%N else h)
  end.

Definition minuteOf (p : TimeText) : N :=
  match minuteText p with
  | Some (_, mm) => Number_of_digits mm
  | None => 0%N
  end.

(** Zero-padded HH:MM. *)
Definition clockString (h m : N) : string :=
  padStart0 2 (String_of_N h) ++ ":" ++ padStart0 2 (String_of_N m).

(** The fields the hook never assigns. *)
Definition otherFieldsEqual (a b : EventDocument) : Prop :=
  _id a = _id b /\ title a = title b /\ description a = description b
  /\ overview a = overview b /\ image a = image b /\ venue a = venue b
  /\ location a = location b /\ mode a = mode b /\ audience a = audience b
  /\ agenda a = agenda b /\ organizer a = organizer b /\ tags a = tags b
  /\ EventModel.createdAt a = EventModel.createdAt b
  /\ EventModel.updatedAt a = EventModel.updatedAt b.

(** The slug a save adopts, when the save succeeds. *)
Definition adoptedSlug (h : Host) (db : list EventDocument)
    (doc : EventDocument) : option string :=
  match save h db doc with
  | Some (Ok (_, d)) => Some (slug d)
  | _ => None
  end.

(** YYYY-MM-DD. *)
Definition isIsoDate (s : string) : bool :=
  match s with
  | String ya (String yb (String yc (String yd (String sa
      (String ma (String mb (String sb (String da (String db EmptyString)))))))))
    => isDigit ya && isDigit yb && isDigit yc && isDigit yd && isHyphen sa
       && isDigit ma && isDigit mb && isHyphen sb && isDigit da && isDigit db
  | _ => false
  end.

(** No two records of different identity share a slug, and no two records
    share an identity. *)
Definition SlugsUnique (db : list EventDocument) : Prop :=
  forall d1 d2, In d1 db -> In d2 db -> slug d1 = slug d2 -> _id d1 = _id d2.

Definition IdsUnique (db : list EventDocument) : Prop :=
  NoDup (map _id db).

(** The number of occurrences of a character. *)
Fixpoint countChar (ch : ascii) (s : string) : nat :=
  match s with
  | EmptyString => 0
  | String c s' => (if Ascii.eqb c ch then 1 else 0) + countChar ch s'
  end.

(** The date part of the ISO string of a day number. *)
Definition isoDatePart (day : Z) : string :=
  let '(y, m, d) := civilFromDays day in
  isoYear y ++ "-" ++ digitsOfZ 2 m ++ "-" ++ digitsOfZ 2 d.

(** Two digits, a colon, two digits. *)
Definition isClock (s : string) : bool :=
  match s with
  | String ha (String hb (String c (String ma (String mb EmptyString)))) =>
      isDigit ha && isDigit hb && (code c =? 58)%N && isDigit ma && isDigit mb
  | _ => false
  end.

End Vocabulary.

(** ** Sample data *)

Module Samples.
Import JS EventModel.

(** A host whose clock reads [now] and whose parser knows the dates of
    [table]; every other string is unparseable. *)
Fixpoint lookupDate (table : list (string * Z)) (s : string) : option Z :=
  match table with
  | [] => None
  | (k, v) :: rest => if String.eqb k s then Some v else lookupDate rest s
  end.

Definition hostWith (now : N) (table : list (string * Z)) : Host :=
  {| Date_now := now; Date_parse := lookupDate table |}.

(** Time values as ECMA-262 gives them for two date strings. *)
Definition sampleHost : Host :=
  hostWith 1700000000000
    [("2024-03-09T21:05:00.123Z", 1710018300123%Z);
     ("+010000-01-01", 253402300800000%Z)].

(** [new Event({ title, date, time, ... })]: a new document, every path
    that was set being marked as modified. *)
Definition newEvent (id : ObjectId) (title date time : string) : EventDocument :=
  {| _id := id; title := title; slug := ""; description := "A meetup";
     overview := "Talks"; image := "/images/e.png"; venue := "Hall";
     location := "Lagos"; date := date; time := time; mode := "offline";
     audience := "Developers"; agenda := ["Doors"]; organizer := "Team";
     tags := ["dev"]; EventModel.createdAt := None;
     EventModel.updatedAt := None; isNew := true;
     modifiedPaths := ["title"; "description"; "overview"; "image"; "venue";
                       "location"; "date"; "time"; "mode"; "audience";
                       "agenda"; "organizer"; "tags"] |}.

Definition idA : ObjectId := "65f0c0ffee00000000000001".
Definition idB : ObjectId := "65f0c0ffee00000000000002".

Definition sampleEvents : list EventDocument :=
  [stored (assign_slug "dev-meetup"
             (newEvent idA "Dev Meetup!" "2024-03-09" "09:30"))].

End Samples.

(** * Properties *)

(** ** Strings *)

Module StringFacts.
Import JS.

Lemma allChars_app (p : ascii -> bool) (a b : string) :
  allChars p (a ++ b) = allChars p a && allChars p b.
Proof.
  induction a as [|c a IH]; simpl; [reflexivity|].
  rewrite IH. apply andb_assoc.
Qed.

Lemma allChars_impl (p q : ascii -> bool) (s : string) :
  (forall c, p c = true -> q c = true) ->
  allChars p s = true -> allChars q s = true.
Proof.
  intros Hpq. induction s as [|c s IH]; simpl; [reflexivity|].
  intros H. apply andb_true_iff in H as [Hc Hs].
  apply andb_true_iff. split; auto.
Qed.

Lemma allChars_trimStart (p : ascii -> bool) (s : string) :
  allChars p s = true -> allChars p (trimStart s) = true.
Proof.
  induction s as [|c s IH]; simpl; [reflexivity|].
  intros H. destruct (isWhiteSpace c); [|exact H].
  apply andb_true_iff in H as [_ Hs]. auto.
Qed.

Lemma allChars_trimEnd (p : ascii -> bool) (s : string) :
  allChars p s = true -> allChars p (trimEnd s) = true.
Proof.
  induction s as [|c s IH]; simpl; [reflexivity|].
  intros H. apply andb_true_iff in H as [Hc Hs].
  specialize (IH Hs).
  destruct (trimEnd s) as [|c' t].
  - destruct (isWhiteSpace c); simpl; [reflexivity|].
    rewrite Hc. reflexivity.
  - change (allChars p (String c (String c' t)))
      with (p c && allChars p (String c' t)).
    rewrite Hc, IH. reflexivity.
Qed.

Lemma allChars_toLowerCase (p : ascii -> bool) (s : string) :
  allChars p (toLowerCase s) = allChars (fun c => p (lowerChar c)) s.
Proof.
  induction s as [|c s IH]; simpl; [reflexivity|].
  rewrite IH. reflexivity.
Qed.

Lemma allChars_keep (p : ascii -> bool) (s : string) :
  allChars p (keep p s) = true.
Proof.
  induction s as [|c s IH]; simpl; [reflexivity|].
  destruct (p c) eqn:Hc; simpl; [rewrite Hc|]; exact IH.
Qed.

Lemma keep_none (p : ascii -> bool) (s : string) :
  allChars (fun c => negb (p c)) s = true -> keep p s = "".
Proof.
  induction s as [|c s IH]; simpl; [reflexivity|].
  intros H. apply andb_true_iff in H as [Hc Hs].
  apply negb_true_iff in Hc. rewrite Hc. auto.
Qed.

(** The decimal rendering of a number: digits only, never empty, and
    different numbers render differently. *)
Lemma string_of_uint_digits (d : Decimal.uint) :
  allChars isDigit (NilEmpty.string_of_uint d) = true.
Proof.
  induction d; simpl; auto.
Qed.

Lemma String_of_N_digits (n : N) : allChars isDigit (String_of_N n) = true.
Proof. apply string_of_uint_digits. Qed.

Lemma String_of_N_nonempty (n : N) : String_of_N n <> "".
Proof.
  unfold String_of_N. destruct n as [|p]; simpl; [discriminate|].
  pose proof (DecimalPos.Unsigned.to_uint_nonnil p) as H.
  destruct (Pos.to_uint p); simpl; congruence.
Qed.

Lemma String_of_N_inj (n m : N) : String_of_N n = String_of_N m -> n = m.
Proof.
  unfold String_of_N. intros H.
  apply DecimalN.Unsigned.to_uint_inj.
  pose proof (NilEmpty.usu (N.to_uint n)) as Hn.
  pose proof (NilEmpty.usu (N.to_uint m)) as Hm.
  congruence.
Qed.

Lemma append_inj_l (a b c : string) : a ++ b = a ++ c -> b = c.
Proof.
  induction a as [|x a IH]; simpl; [auto|].
  intros H. injection H. auto.
Qed.

Lemma length_append (a b : string) :
  String.length (a ++ b) = String.length a + String.length b.
Proof.
  induction a as [|x a IH]; simpl; [reflexivity|].
  rewrite IH. reflexivity.
Qed.

Lemma append_nonempty_neq (a b : string) : b <> "" -> a <> a ++ b.
Proof.
  intros Hb H. apply (f_equal String.length) in H.
  rewrite length_append in H.
  destruct b; [congruence|]. simpl in H. lia.
Qed.

End StringFacts.

(** ** Slug generation *)

Module SlugFacts.
Import JS EventModel Vocabulary StringFacts.

(** *** The normalized base *)

Lemma whiteSpace_not_urlSafe_free (c : ascii) :
  slugChar c = true -> isWhiteSpace c = false -> urlSafe c = true.
Proof.
  unfold slugChar, urlSafe. intros H Hw. rewrite Hw, orb_false_r in H. exact H.
Qed.

Lemma replace_whiteSpace_urlSafe (b : bool) (s : string) :
  allChars slugChar s = true ->
  allChars urlSafe (replaceRuns isWhiteSpace "-" b s) = true.
Proof.
  revert b. induction s as [|c s IH]; intros b; simpl; [reflexivity|].
  intros H. apply andb_true_iff in H as [Hc Hs].
  destruct (isWhiteSpace c) eqn:Hw.
  - destruct b; simpl; auto.
  - simpl. rewrite (whiteSpace_not_urlSafe_free c Hc Hw). simpl. auto.
Qed.

Lemma replace_hyphen_urlSafe (b : bool) (s : string) :
  allChars urlSafe s = true ->
  allChars urlSafe (replaceRuns isHyphen "-" b s) = true.
Proof.
  revert b. induction s as [|c s IH]; intros b; simpl; [reflexivity|].
  intros H. apply andb_true_iff in H as [Hc Hs].
  destruct (isHyphen c) eqn:Hh.
  - destruct b; simpl; auto.
  - simpl. rewrite Hc. simpl. auto.
Qed.

Lemma slugify_urlSafe (value : string) :
  allChars urlSafe (slugify value) = true.
Proof.
  unfold slugify.
  apply replace_hyphen_urlSafe, replace_whiteSpace_urlSafe, allChars_keep.
Qed.

(** After the last replacement no two hyphens are adjacent; inside a run
    the output does not even start with one. *)
Lemma replace_hyphen_single (b : bool) (s : string) :
  hasDoubleHyphen (replaceRuns isHyphen "-" b s) = false
  /\ (b = true -> startsWithHyphen (replaceRuns isHyphen "-" b s) = false).
Proof.
  revert b. induction s as [|c s IH]; intros b; simpl; [auto|].
  destruct (isHyphen c) eqn:Hh.
  - destruct (IH true) as [Hd Hs]. destruct b; simpl.
    + auto.
    + rewrite Hd, (Hs eq_refl). auto.
  - destruct (IH false) as [Hd _]. simpl. rewrite Hh, Hd. split; auto.
Qed.

Lemma slugify_single_hyphens (value : string) :
  hasDoubleHyphen (slugify value) = false.
Proof. unfold slugify. apply replace_hyphen_single. Qed.

(** A title whose lower-cased characters all lie outside [a-z0-9\-\s] has
    an empty base. *)
Lemma slugify_empty (value : string) :
  allChars (fun c => negb (slugChar c)) (toLowerCase value) = true ->
  slugify value = "".
Proof.
  intros H. unfold slugify.
  rewrite keep_none; [reflexivity|].
  rewrite allChars_toLowerCase in *.
  unfold trim. apply allChars_trimEnd, allChars_trimStart, H.
Qed.

(** *** Suffixes *)

Lemma hasDoubleHyphen_app (a b : string) :
  hasDoubleHyphen a = false -> hasDoubleHyphen b = false ->
  (endsWithHyphen a && startsWithHyphen b = false) ->
  hasDoubleHyphen (a ++ b) = false.
Proof.
  induction a as [|c a IH]; simpl; [auto|].
  intros Ha Hb He.
  apply orb_false_iff in Ha as [Hc Ha].
  destruct a as [|c' a'].
  - simpl in *. rewrite He, Hb. reflexivity.
  - specialize (IH Ha Hb He).
    change (String c' a' ++ b) with (String c' (a' ++ b)) in *.
    rewrite IH. simpl in Hc |- *. rewrite Hc. reflexivity.
Qed.

Lemma digits_no_hyphen (s : string) :
  allChars isDigit s = true ->
  hasDoubleHyphen s = false /\ startsWithHyphen s = false.
Proof.
  assert (Hd : forall c, isDigit c = true -> isHyphen c = false).
  { intros c. unfold isDigit, isHyphen, between. intros H.
    apply andb_true_iff in H as [H1 H2].
    apply N.leb_le in H1. apply N.eqb_neq. lia. }
  induction s as [|c s IH]; simpl; [auto|].
  intros H. apply andb_true_iff in H as [Hc Hs].
  rewrite (Hd c Hc). simpl. split; [apply IH, Hs | reflexivity].
Qed.

Lemma digit_urlSafe (c : ascii) : isDigit c = true -> urlSafe c = true.
Proof. unfold urlSafe. intros ->. rewrite orb_true_r. reflexivity. Qed.

Lemma suffix_single_hyphens (base : string) (k : N) :
  hasDoubleHyphen base = false -> endsWithHyphen base = false ->
  hasDoubleHyphen (base ++ "-" ++ String_of_N k) = false.
Proof.
  intros Hb He. apply hasDoubleHyphen_app; [exact Hb| |rewrite He; reflexivity].
  destruct (digits_no_hyphen _ (String_of_N_digits k)) as [H1 H2].
  simpl. rewrite H1, H2. reflexivity.
Qed.

Lemma suffix_urlSafe (base : string) (k : N) :
  allChars urlSafe base = true ->
  allChars urlSafe (base ++ "-" ++ String_of_N k) = true.
Proof.
  intros Hb. rewrite allChars_app, Hb. simpl.
  apply (allChars_impl isDigit); [exact digit_urlSafe|apply String_of_N_digits].
Qed.

Lemma suffix_inj (base : string) (j k : N) :
  base ++ "-" ++ String_of_N j = base ++ "-" ++ String_of_N k -> j = k.
Proof.
  intros H. apply append_inj_l in H. simpl in H.
  injection H as H. apply String_of_N_inj, H.
Qed.

Lemma suffix_nonempty (base : string) (k : N) :
  base ++ "-" ++ String_of_N k <> "".
Proof. destruct base; simpl; discriminate. Qed.

(** *** The uniqueness loop *)

Lemma candidateFrom_shift (base cand : string) (i : N) (j : nat) :
  candidateFrom base cand i (S j)
  = candidateFrom base (base ++ "-" ++ String_of_N (i + 1)) (i + 1) j.
Proof.
  destruct j as [|j]; unfold candidateFrom.
  - reflexivity.
  - do 3 f_equal. lia.
Qed.

Lemma candidateFrom_zero (first base : string) (j : nat) :
  candidateFrom base first 0 j = candidateAt first base (N.of_nat j).
Proof.
  destruct j as [|j]; [reflexivity|].
  unfold candidateFrom, candidateAt.
  replace (N.of_nat (S j) =? 0)%N with false; [reflexivity|].
  symmetry. apply N.eqb_neq. lia.
Qed.

(** A loop that ends returns the first free candidate of its sequence. *)
Lemma slugLoop_Some (fuel : nat) (db : list EventDocument) (id : ObjectId)
    (base cand : string) (i : N) (c : string) :
  slugLoop fuel db id base cand i = Some c ->
  exists j, j < fuel /\ c = candidateFrom base cand i j /\ free db id c
            /\ forall j', j' < j -> ~ free db id (candidateFrom base cand i j').
Proof.
  revert cand i. induction fuel as [|fuel IH]; intros cand i; simpl;
    [discriminate|].
  destruct (Nat.eqb (countDocuments db cand id) 0) eqn:Hc.
  - intros [= <-]. exists 0. repeat split; [lia| |intros j' Hj'; lia].
    apply Nat.eqb_eq, Hc.
  - intros H. apply IH in H as (j & Hj & Hcj & Hfree & Hmin).
    exists (S j). rewrite candidateFrom_shift.
    repeat split; [lia|exact Hcj|exact Hfree|].
    intros [|j'] Hj'.
    + simpl. unfold free. apply Nat.eqb_neq, Hc.
    + rewrite candidateFrom_shift. apply Hmin. lia.
Qed.

(** A loop that runs out of fuel met a conflict at every iteration. *)
Lemma slugLoop_None (fuel : nat) (db : list EventDocument) (id : ObjectId)
    (base cand : string) (i : N) :
  slugLoop fuel db id base cand i = None ->
  forall j, j < fuel -> ~ free db id (candidateFrom base cand i j).
Proof.
  revert cand i. induction fuel as [|fuel IH]; intros cand i; simpl;
    [intros _ j Hj; lia|].
  destruct (Nat.eqb (countDocuments db cand id) 0) eqn:Hc; [discriminate|].
  intros H [|j] Hj.
  - simpl. unfold free. apply Nat.eqb_neq, Hc.
  - rewrite candidateFrom_shift. apply (IH _ _ H). lia.
Qed.

(** More fuel does not change what a loop that ends returns. *)
Lemma slugLoop_more_fuel (fuel fuel' : nat) (db : list EventDocument)
    (id : ObjectId) (base cand : string) (i : N) (c : string) :
  slugLoop fuel db id base cand i = Some c ->
  fuel <= fuel' ->
  slugLoop fuel' db id base cand i = Some c.
Proof.
  revert fuel' cand i. induction fuel as [|fuel IH]; intros fuel' cand i;
    simpl; [discriminate|].
  intros H Hle. destruct fuel' as [|fuel']; [lia|]. simpl.
  destruct (Nat.eqb (countDocuments db cand id) 0); [exact H|].
  apply IH; [exact H|lia].
Qed.

Lemma conflict_in_db (db : list EventDocument) (id : ObjectId) (c : string) :
  ~ free db id c ->
  exists d, In d db /\ slug d = c /\ _id d <> id.
Proof.
  unfold free, countDocuments. intros H.
  destruct (filter _ db) as [|d l] eqn:Hf; [contradiction H; reflexivity|].
  assert (Hin : In d (filter (fun d => String.eqb (slug d) c
                                && negb (String.eqb (_id d) id)) db)).
  { rewrite Hf. left. reflexivity. }
  apply filter_In in Hin as [Hin Hd].
  apply andb_true_iff in Hd as [Hs Hi].
  exists d. split; [exact Hin|]. split.
  - apply String.eqb_eq, Hs.
  - apply negb_true_iff in Hi. apply String.eqb_neq, Hi.
Qed.

Lemma in_db_conflict (db : list EventDocument) (id : ObjectId) (d : EventDocument) :
  In d db -> _id d <> id -> ~ free db id (slug d).
Proof.
  unfold free, countDocuments. intros Hin Hid H.
  apply length_zero_iff_nil in H.
  assert (Hf : In d (filter (fun d0 => String.eqb (slug d0) (slug d)
                               && negb (String.eqb (_id d0) id)) db)).
  { apply filter_In. split; [exact Hin|].
    rewrite String.eqb_refl. simpl.
    apply negb_true_iff, String.eqb_neq, Hid. }
  rewrite H in Hf. exact Hf.
Qed.

Lemma free_iff (db : list EventDocument) (id : ObjectId) (c : string) :
  free db id c <-> forall d, In d db -> slug d = c -> _id d = id.
Proof.
  split.
  - intros Hfree d Hin Hs.
    destruct (String.eqb_spec (_id d) id) as [He|Hne]; [exact He|].
    exfalso. apply (in_db_conflict db id d Hin Hne). rewrite Hs. exact Hfree.
  - intros H. unfold free.
    destruct (Nat.eq_dec (countDocuments db c id) 0) as [Hz|Hnz]; [exact Hz|].
    destruct (conflict_in_db db id c Hnz) as (d & Hin & Hs & Hid).
    contradiction Hid. apply H; assumption.
Qed.

(** The collection is finite and the suffixed candidates are pairwise
    different, so two more iterations than there are documents suffice. *)
Lemma slugLoop_terminates (db : list EventDocument) (id : ObjectId)
    (base cand : string) (i : N) :
  slugLoop (List.length db + 2) db id base cand i <> None.
Proof.
  intros Hnone.
  pose proof (slugLoop_None _ _ _ _ _ _ Hnone) as Hall.
  set (f := fun j : nat => base ++ "-" ++ String_of_N (i + N.of_nat j)).
  set (L := map f (seq 1 (List.length db + 1))).
  assert (Hnd : NoDup L).
  { apply Injective_map_NoDup; [|apply seq_NoDup].
    intros x y Hxy. apply suffix_inj in Hxy. lia. }
  assert (Hincl : incl L (map slug db)).
  { intros c Hc. apply in_map_iff in Hc as (j & <- & Hj).
    apply in_seq in Hj.
    destruct (conflict_in_db db id (candidateFrom base cand i j))
      as (d & Hin & Hs & _); [apply Hall; lia|].
    apply in_map_iff. exists d. split; [|exact Hin].
    rewrite Hs. destruct j; [lia|reflexivity]. }
  pose proof (NoDup_incl_length Hnd Hincl) as Hlen.
  unfold L in Hlen. rewrite length_map, length_seq, length_map in Hlen. lia.
Qed.

(** The slug block: it ends, and adopts the first free candidate. *)
Lemma slugStage_modified (h : Host) (db : list EventDocument)
    (doc : EventDocument) :
  isModified doc "title" = true ->
  let base := slugify (title doc) in
  let first := firstCandidate h base in
  exists k : N,
    slugStage h db doc = Some (assign_slug (candidateAt first base k) doc)
    /\ free db (_id doc) (candidateAt first base k)
    /\ forall j : N, (j < k)%N -> ~ free db (_id doc) (candidateAt first base j).
Proof.
  intros Hmod base first. unfold slugStage. rewrite Hmod. fold base first.
  destruct (slugLoop (List.length db + 2) db (_id doc) base first 0) as [c|] eqn:Hl.
  - apply slugLoop_Some in Hl as (j & _ & Hc & Hfree & Hmin).
    rewrite candidateFrom_zero in Hc. subst c.
    exists (N.of_nat j). repeat split; [exact Hfree|].
    intros j' Hj'. rewrite <- (N2Nat.id j'), <- candidateFrom_zero.
    apply Hmin. lia.
  - exfalso. exact (slugLoop_terminates _ _ _ _ _ Hl).
Qed.

Lemma slugStage_unmodified (h : Host) (db : list EventDocument)
    (doc : EventDocument) :
  isModified doc "title" = false -> slugStage h db doc = Some doc.
Proof. intros H. unfold slugStage. rewrite H. reflexivity. Qed.

End SlugFacts.

(** ** The pre-save hook of the Event model *)

Module EventHookFacts.
Import JS EventModel Vocabulary Samples StringFacts SlugFacts.

Lemma slugStage_cases (h : Host) (db : list EventDocument)
    (doc d1 : EventDocument) :
  slugStage h db doc = Some d1 ->
  (isModified doc "title" = false /\ d1 = doc)
  \/ (isModified doc "title" = true /\ exists c, d1 = assign_slug c doc).
Proof.
  unfold slugStage. destruct (isModified doc "title"); [|intros [= <-]; auto].
  destruct (slugLoop _ _ _ _ _ _) as [c|]; [|discriminate].
  intros [= <-]. right. eauto.
Qed.

Lemma dateStage_cases (h : Host) (d d' : EventDocument) :
  dateStage h d = Ok d' ->
  (isModified d "date" = false /\ d' = d)
  \/ (isModified d "date" = true
      /\ exists v, normalizeDate h (date d) = Ok v /\ d' = assign_date v d).
Proof.
  unfold dateStage. destruct (isModified d "date"); [|intros [= <-]; auto].
  destruct (normalizeDate h (date d)) as [v|m]; simpl; [|discriminate].
  intros [= <-]. right. eauto.
Qed.

Lemma timeStage_cases (d d' : EventDocument) :
  timeStage d = Ok d' ->
  (isModified d "time" = false /\ d' = d)
  \/ (isModified d "time" = true
      /\ exists v, normalizeTime (time d) = Ok v /\ d' = assign_time v d).
Proof.
  unfold timeStage. destruct (isModified d "time"); [|intros [= <-]; auto].
  destruct (normalizeTime (time d)) as [v|m]; simpl; [|discriminate].
  intros [= <-]. right. eauto.
Qed.

Lemma pre_save_stages (h : Host) (db : list EventDocument)
    (doc d' : EventDocument) :
  pre_save h db doc = Some (Ok d') ->
  exists d1 d2,
    slugStage h db doc = Some d1 /\ dateStage h d1 = Ok d2 /\ timeStage d2 = Ok d'.
Proof.
  unfold pre_save. destruct (slugStage h db doc) as [d1|]; [|discriminate].
  intros [= H]. destruct (dateStage h d1) as [d2|m] eqn:Hd; [|discriminate].
  exists d1, d2. auto.
Qed.

(** The hook always returns: the slug loop ends. *)
Lemma pre_save_returns (h : Host) (db : list EventDocument) (doc : EventDocument) :
  exists r, pre_save h db doc = Some r.
Proof.
  unfold pre_save.
  destruct (isModified doc "title") eqn:Hm.
  - destruct (slugStage_modified h db doc Hm) as (k & -> & _). eauto.
  - rewrite (slugStage_unmodified h db doc Hm). eauto.
Qed.

(** Marking another path does not change what [isModified] answers. *)
Lemma isModified_mark (d : EventDocument) (path other : string) (changed : bool) :
  String.eqb path other = false ->
  existsb (String.eqb path) (markModified other changed d) = isModified d path.
Proof.
  intros Hne. unfold markModified.
  destruct (isModified d other); [reflexivity|].
  destruct (isNew d || changed); [|reflexivity].
  simpl. rewrite Hne. reflexivity.
Qed.

(** The date and time blocks leave the slug and the identity alone. *)
Lemma later_stages_keep_slug (h : Host) (d1 d2 d' : EventDocument) :
  dateStage h d1 = Ok d2 -> timeStage d2 = Ok d' ->
  slug d' = slug d1 /\ _id d' = _id d1.
Proof.
  intros Hd Ht.
  apply dateStage_cases in Hd as [[_ ->]|[_ (v & _ & ->)]];
    apply timeStage_cases in Ht as [[_ ->]|[_ (w & _ & ->)]]; auto.
Qed.

Lemma save_inv (h : Host) (db db' : list EventDocument) (doc d' : EventDocument) :
  save h db doc = Some (Ok (db', d')) ->
  exists d0, pre_save h db doc = Some (Ok d0)
             /\ db' = persist d0 db /\ d' = stored d0.
Proof.
  unfold save. destruct (pre_save h db doc) as [[d0|m]|]; try discriminate.
  intros [= <- <-]. eauto.
Qed.

(** What a successful save of a document with a modified title adopts. *)
Lemma save_adopts (h : Host) (db db' : list EventDocument) (doc d' : EventDocument) :
  isModified doc "title" = true ->
  save h db doc = Some (Ok (db', d')) ->
  let base := slugify (title doc) in
  let first := firstCandidate h base in
  exists (k : N) (d0 : EventDocument),
    slug d' = candidateAt first base k
    /\ free db (_id doc) (candidateAt first base k)
    /\ (forall j : N, (j < k)%N -> ~ free db (_id doc) (candidateAt first base j))
    /\ db' = persist d0 db /\ d' = stored d0
    /\ slug d0 = slug d' /\ _id d0 = _id doc.
Proof.
  intros Hmod Hsave base first.
  apply save_inv in Hsave as (d0 & Hpre & -> & ->).
  apply pre_save_stages in Hpre as (d1 & d2 & Hs & Hd & Ht).
  destruct (slugStage_modified h db doc Hmod) as (k & Hk & Hfree & Hmin).
  rewrite Hk in Hs. injection Hs as <-.
  destruct (later_stages_keep_slug h _ _ _ Hd Ht) as [Hslug Hid].
  exists k, d0. simpl in *. repeat split; auto.
Qed.

End EventHookFacts.

(** ** The Event model: slugs *)

Module SlugClaims.
Import JS EventModel Vocabulary Samples StringFacts SlugFacts EventHookFacts.

Lemma firstCandidate_base (h : Host) (base : string) :
  base <> "" -> firstCandidate h base = base.
Proof.
  intros H. unfold firstCandidate.
  destruct (String.eqb_spec base ""); [contradiction|reflexivity].
Qed.

Lemma firstCandidate_empty (h : Host) :
  firstCandidate h "" = String_of_N (Date_now h).
Proof. reflexivity. Qed.

Lemma stored_in_persist (d0 : EventDocument) (db : list EventDocument) :
  In (stored d0) (persist d0 db).
Proof. left. reflexivity. Qed.

Lemma in_persist (d d0 : EventDocument) (db : list EventDocument) :
  In d (persist d0 db) -> d = stored d0 \/ In d db.
Proof.
  intros [H|H]; [left; symmetry; exact H|].
  right. apply filter_In in H. apply H.
Qed.

(** C1. For a title whose normalized base is not empty, the uniqueness
    loop adopts the first candidate, among [base], [base-1], [base-2], ...,
    that no other record uses; two events saved one after the other with
    the same title get different slugs, and they get [base] and [base-1]
    when no record used either before. *)
Theorem identical_titles_distinct_slugs :
  forall (h : Host) (db : list EventDocument) (doc : EventDocument),
    let base := slugify (title doc) in
    isModified doc "title" = true ->
    base <> "" ->
    (exists k : N,
        slugStage h db doc = Some (assign_slug (candidateAt base base k) doc)
        /\ free db (_id doc) (candidateAt base base k)
        /\ forall j : N, (j < k)%N -> ~ free db (_id doc) (candidateAt base base j))
    /\ forall (h2 : Host) (doc2 : EventDocument)
              (db1 db2 : list EventDocument) (d1 d2 : EventDocument),
         title doc2 = title doc ->
         _id doc2 <> _id doc ->
         isModified doc2 "title" = true ->
         save h db doc = Some (Ok (db1, d1)) ->
         save h2 db1 doc2 = Some (Ok (db2, d2)) ->
         slug d1 <> slug d2
         /\ ((forall d, In d db -> slug d <> base /\ slug d <> base ++ "-1") ->
             slug d1 = base /\ slug d2 = base ++ "-1").
Proof.
  intros h db doc base Hmod Hbase. split.
  - pose proof (slugStage_modified h db doc Hmod) as H. simpl in H.
    fold base in H. rewrite (firstCandidate_base h base Hbase) in H. exact H.
  - intros h2 doc2 db1 db2 d1 d2 Htitle Hid Hmod2 Hs1 Hs2.
    pose proof (save_adopts h db db1 doc d1 Hmod Hs1) as H1.
    pose proof (save_adopts h2 db1 db2 doc2 d2 Hmod2 Hs2) as H2.
    simpl in H1, H2. rewrite Htitle in H2. fold base in H1, H2.
    rewrite (firstCandidate_base h base Hbase) in H1.
    rewrite (firstCandidate_base h2 base Hbase) in H2.
    destruct H1 as (k1 & a1 & Hk1 & Hfree1 & Hmin1 & Hdb1 & Hd1 & Hsl1 & Hid1).
    destruct H2 as (k2 & a2 & Hk2 & Hfree2 & Hmin2 & _ & _ & _ & _).
    assert (Hin1 : In d1 db1).
    { rewrite Hdb1, Hd1. apply stored_in_persist. }
    assert (Hd1id : _id d1 <> _id doc2).
    { rewrite Hd1. simpl. rewrite Hid1. auto. }
    assert (Hused : ~ free db1 (_id doc2) (slug d1)).
    { apply in_db_conflict; assumption. }
    split.
    + intros Heq. apply Hused. rewrite Heq, Hk2. exact Hfree2.
    + intros Hnone.
      assert (Hk1z : k1 = 0%N).
      { destruct (N.eq_dec k1 0) as [|Hnz]; [assumption|].
        exfalso. apply (Hmin1 0%N); [lia|].
        apply free_iff. intros d Hin Hs. destruct (Hnone d Hin) as [Hb _].
        contradiction. }
      assert (Hslug1 : slug d1 = base).
      { rewrite Hk1, Hk1z. reflexivity. }
      split; [exact Hslug1|].
      assert (Hk2nz : k2 <> 0%N).
      { intros ->. apply Hused. rewrite Hslug1. exact Hfree2. }
      assert (Hfree : free db1 (_id doc2) (candidateAt base base 1)).
      { apply free_iff. intros d Hin Hs. exfalso.
        rewrite Hdb1 in Hin. apply in_persist in Hin as [->|Hin].
        - change (slug (stored a1)) with (slug a1) in Hs.
          rewrite Hsl1, Hslug1 in Hs.
          apply (append_nonempty_neq base ("-" ++ String_of_N 1)); [discriminate|].
          exact Hs.
        - destruct (Hnone d Hin) as [_ Hb]. apply Hb. exact Hs. }
      assert (Hk2o : k2 = 1%N).
      { destruct (N.lt_trichotomy k2 1) as [Hlt|[Heq|Hgt]]; [lia|exact Heq|].
        exfalso. exact (Hmin2 1%N Hgt Hfree). }
      rewrite Hk2, Hk2o. reflexivity.
Qed.

Lemma identical_titles_witness :
  let doc := newEvent idA "Dev Meetup!" "2024-03-09T21:05:00.123Z" "9:30 AM" in
  let doc2 := newEvent idB "Dev Meetup!" "2024-03-09T21:05:00.123Z" "6 PM" in
  exists (db1 db2 : list EventDocument) (d1 d2 : EventDocument),
    save sampleHost [] doc = Some (Ok (db1, d1))
    /\ save sampleHost db1 doc2 = Some (Ok (db2, d2))
    /\ slug d1 <> slug d2
    /\ slug d1 = "dev-meetup" /\ slug d2 = "dev-meetup-1".
Proof.
  intros doc doc2.
  assert (Hbase : slugify (title doc) <> "") by (vm_compute; discriminate).
  assert (Hid : _id doc2 <> _id doc) by (vm_compute; discriminate).
  do 4 eexists.
  split; [vm_compute; reflexivity|].
  split; [vm_compute; reflexivity|].
  destruct (proj2 (identical_titles_distinct_slugs sampleHost [] doc eq_refl Hbase)
              sampleHost doc2 _ _ _ _ eq_refl Hid eq_refl eq_refl eq_refl)
    as [Hne Hboth].
  split; [exact Hne|].
  apply Hboth. intros d [].
Defined.

Lemma urlSafe_not_upper (c : ascii) : urlSafe c = true -> isUpper c = false.
Proof.
  unfold urlSafe, isLower, isDigit, isHyphen, isUpper, between.
  intros H. apply andb_false_iff.
  repeat (apply orb_true_iff in H as [H|H]).
  - apply andb_true_iff in H as [H _]. apply N.leb_le in H.
    right. apply N.leb_gt. lia.
  - apply andb_true_iff in H as [_ H]. apply N.leb_le in H.
    left. apply N.leb_gt. lia.
  - apply N.eqb_eq in H. left. apply N.leb_gt. lia.
Qed.

Lemma candidate_urlSafe (h : Host) (value : string) (k : N) :
  allChars urlSafe
    (candidateAt (firstCandidate h (slugify value)) (slugify value) k) = true.
Proof.
  unfold candidateAt. destruct (k =? 0)%N.
  - unfold firstCandidate. destruct (String.eqb (slugify value) "").
    + apply (allChars_impl isDigit); [exact digit_urlSafe|].
      apply String_of_N_digits.
    + apply slugify_urlSafe.
  - apply suffix_urlSafe, slugify_urlSafe.
Qed.

Lemma candidate_single_hyphens (h : Host) (value : string) (k : N) :
  endsWithHyphen (slugify value) = false ->
  hasDoubleHyphen
    (candidateAt (firstCandidate h (slugify value)) (slugify value) k) = false.
Proof.
  intros He. unfold candidateAt. destruct (k =? 0)%N.
  - unfold firstCandidate. destruct (String.eqb (slugify value) "").
    + apply digits_no_hyphen, String_of_N_digits.
    + apply slugify_single_hyphens.
  - apply suffix_single_hyphens; [apply slugify_single_hyphens|exact He].
Qed.

(** C2, as stated, fails: a title that starts with a hyphen keeps it, a
    title that ends with white space and a hyphen keeps a hyphen at the
    end, and the counter suffix then gives two hyphens in a row. *)
Lemma slug_hyphens_counterexample :
  adoptedSlug sampleHost []
    (newEvent idA "-a" "2024-03-09T21:05:00.123Z" "9:30 AM") = Some "-a"
  /\ startsWithHyphen "-a" = true
  /\ adoptedSlug sampleHost []
       (newEvent idA "a -" "2024-03-09T21:05:00.123Z" "9:30 AM") = Some "a-"
  /\ endsWithHyphen "a-" = true
  /\ adoptedSlug sampleHost
       [stored (assign_slug "a-"
                  (newEvent idA "a -" "2024-03-09T21:05:00.123Z" "09:30"))]
       (newEvent idB "a -" "2024-03-09T21:05:00.123Z" "9:30 AM") = Some "a--1"
  /\ hasDoubleHyphen "a--1" = true.
Proof. repeat split; vm_compute; reflexivity. Qed.

(** C2, amended.  The slug adopted at save time consists of lowercase
    letters, digits and hyphens only, so it has no uppercase letter; the
    normalized base has no two hyphens in a row, and neither has the
    adopted slug when the base does not end with a hyphen. *)
Theorem adopted_slug_url_safe :
  forall (h : Host) (db db' : list EventDocument) (doc d' : EventDocument),
    isModified doc "title" = true ->
    save h db doc = Some (Ok (db', d')) ->
    allChars urlSafe (slug d') = true
    /\ allChars (fun c => negb (isUpper c)) (slug d') = true
    /\ hasDoubleHyphen (slugify (title doc)) = false
    /\ (endsWithHyphen (slugify (title doc)) = false ->
        hasDoubleHyphen (slug d') = false).
Proof.
  intros h db db' doc d' Hmod Hsave.
  destruct (save_adopts h db db' doc d' Hmod Hsave) as (k & d0 & Hk & _).
  simpl in Hk. rewrite Hk.
  assert (Hsafe := candidate_urlSafe h (title doc) k).
  split; [exact Hsafe|]. split.
  - revert Hsafe. apply allChars_impl. intros c Hc.
    rewrite (urlSafe_not_upper c Hc). reflexivity.
  - split; [apply slugify_single_hyphens|].
    apply candidate_single_hyphens.
Qed.

Lemma adopted_slug_url_safe_witness :
  exists (db' : list EventDocument) (d' : EventDocument),
    save sampleHost []
      (newEvent idA "  Next.js  Conf -- 2024! " "2024-03-09T21:05:00.123Z" "7 pm")
    = Some (Ok (db', d'))
    /\ slug d' = "nextjs-conf-2024"
    /\ allChars urlSafe (slug d') = true
    /\ hasDoubleHyphen (slug d') = false.
Proof.
  do 2 eexists.
  split; [vm_compute; reflexivity|].
  split; [reflexivity|].
  destruct (adopted_slug_url_safe sampleHost [] _
              (newEvent idA "  Next.js  Conf -- 2024! "
                 "2024-03-09T21:05:00.123Z" "7 pm") _ eq_refl eq_refl)
    as (Hsafe & _ & _ & Hsingle).
  split; [exact Hsafe|]. apply Hsingle. reflexivity.
Defined.

(** *** The placeholder *)

(** C9, as stated, fails: uppercase letters lie outside [a-z0-9\-\s], yet
    a title made of them has a base, and no placeholder is used. *)
Lemma placeholder_counterexample :
  allChars (fun c => negb (slugChar c)) "ABC" = true
  /\ slugify "ABC" = "abc"
  /\ adoptedSlug sampleHost []
       (newEvent idA "ABC" "2024-03-09T21:05:00.123Z" "9:30 AM") = Some "abc"
  /\ "abc" <> String_of_N (Date_now sampleHost).
Proof. repeat split; vm_compute; try reflexivity. discriminate. Qed.

(** C9, amended.  For a title whose lower-cased form is made only of
    characters outside [a-z0-9\-\s] the normalized base is empty and the
    slug adopted is not empty; it is the decimal rendering of the clock
    reading whenever no other record uses that string. *)
Theorem empty_base_placeholder :
  forall (h : Host) (db db' : list EventDocument) (doc d' : EventDocument),
    isModified doc "title" = true ->
    allChars (fun c => negb (slugChar c)) (toLowerCase (title doc)) = true ->
    save h db doc = Some (Ok (db', d')) ->
    slugify (title doc) = ""
    /\ slug d' <> ""
    /\ (free db (_id doc) (String_of_N (Date_now h)) ->
        slug d' = String_of_N (Date_now h)).
Proof.
  intros h db db' doc d' Hmod Hout Hsave.
  assert (Hbase : slugify (title doc) = "") by (apply slugify_empty, Hout).
  destruct (save_adopts h db db' doc d' Hmod Hsave)
    as (k & d0 & Hk & _ & Hmin & _).
  simpl in Hk, Hmin. rewrite Hbase, firstCandidate_empty in Hk, Hmin.
  split; [exact Hbase|]. split.
  - rewrite Hk. unfold candidateAt. destruct (k =? 0)%N.
    + apply String_of_N_nonempty.
    + apply suffix_nonempty.
  - intros Hfree. rewrite Hk.
    destruct (N.eq_dec k 0) as [->|Hnz]; [reflexivity|].
    exfalso. apply (Hmin 0%N); [lia|exact Hfree].
Qed.

Lemma empty_base_placeholder_witness :
  exists (db' : list EventDocument) (d' : EventDocument),
    save sampleHost [] (newEvent idA "?!" "2024-03-09T21:05:00.123Z" "9:30 AM")
    = Some (Ok (db', d'))
    /\ slugify "?!" = ""
    /\ slug d' <> ""
    /\ slug d' = "1700000000000".
Proof.
  do 2 eexists.
  split; [vm_compute; reflexivity|].
  destruct (empty_base_placeholder sampleHost [] _
              (newEvent idA "?!" "2024-03-09T21:05:00.123Z" "9:30 AM") _
              eq_refl eq_refl eq_refl) as (Hbase & Hne & Hts).
  split; [exact Hbase|]. split; [exact Hne|].
  apply Hts. reflexivity.
Defined.

End SlugClaims.

(** ** The Event model: what the hook leaves alone *)

Module FrameClaims.
Import JS EventModel Vocabulary Samples StringFacts SlugFacts EventHookFacts.

Lemma otherFieldsEqual_refl (d : EventDocument) : otherFieldsEqual d d.
Proof. unfold otherFieldsEqual. repeat split. Qed.

(** What one block of the hook may change: the field it assigns and the
    change tracking of that field. *)
Lemma slugStage_frame (h : Host) (db : list EventDocument) (doc d1 : EventDocument) :
  slugStage h db doc = Some d1 ->
  otherFieldsEqual doc d1 /\ date d1 = date doc /\ time d1 = time doc
  /\ isModified d1 "date" = isModified doc "date"
  /\ isModified d1 "time" = isModified doc "time"
  /\ (isModified doc "title" = false -> slug d1 = slug doc).
Proof.
  intros H. apply slugStage_cases in H as [[Hm ->]|[Hm (c & ->)]].
  - repeat split; auto using otherFieldsEqual_refl.
  - repeat split; try reflexivity.
    + apply isModified_mark. reflexivity.
    + apply isModified_mark. reflexivity.
    + congruence.
Qed.

Lemma dateStage_frame (h : Host) (d1 d2 : EventDocument) :
  dateStage h d1 = Ok d2 ->
  otherFieldsEqual d1 d2 /\ slug d2 = slug d1 /\ time d2 = time d1
  /\ isModified d2 "time" = isModified d1 "time"
  /\ (isModified d1 "date" = false -> date d2 = date d1).
Proof.
  intros H. apply dateStage_cases in H as [[Hm ->]|[Hm (v & _ & ->)]].
  - repeat split; auto using otherFieldsEqual_refl.
  - repeat split; try reflexivity.
    + apply isModified_mark. reflexivity.
    + congruence.
Qed.

Lemma timeStage_frame (d2 d' : EventDocument) :
  timeStage d2 = Ok d' ->
  otherFieldsEqual d2 d' /\ slug d' = slug d2 /\ date d' = date d2
  /\ (isModified d2 "time" = false -> time d' = time d2).
Proof.
  intros H. apply timeStage_cases in H as [[Hm ->]|[Hm (v & _ & ->)]].
  - repeat split; auto using otherFieldsEqual_refl.
  - repeat split; try reflexivity. congruence.
Qed.

Lemma otherFieldsEqual_trans (a b c : EventDocument) :
  otherFieldsEqual a b -> otherFieldsEqual b c -> otherFieldsEqual a c.
Proof.
  unfold otherFieldsEqual. intros H1 H2.
  repeat match goal with H : _ /\ _ |- _ => destruct H end.
  repeat split; congruence.
Qed.

(** The date and the time reach their blocks as the caller set them. *)
Lemma pre_save_date (h : Host) (db : list EventDocument) (doc d' : EventDocument) :
  isModified doc "date" = true ->
  pre_save h db doc = Some (Ok d') ->
  normalizeDate h (date doc) = Ok (date d').
Proof.
  intros Hmod Hpre.
  apply pre_save_stages in Hpre as (d1 & d2 & Hs & Hd & Ht).
  apply slugStage_frame in Hs as (_ & Hd1 & _ & Hmd1 & _).
  apply timeStage_frame in Ht as (_ & _ & Hd3 & _).
  apply dateStage_cases in Hd as [[Hm _]|[_ (v & Hv & ->)]]; [congruence|].
  rewrite Hd3, <- Hd1. exact Hv.
Qed.

Lemma pre_save_time (h : Host) (db : list EventDocument) (doc d' : EventDocument) :
  isModified doc "time" = true ->
  pre_save h db doc = Some (Ok d') ->
  normalizeTime (time doc) = Ok (time d').
Proof.
  intros Hmod Hpre.
  apply pre_save_stages in Hpre as (d1 & d2 & Hs & Hd & Ht).
  apply slugStage_frame in Hs as (_ & _ & Ht1 & _ & Hmt1 & _).
  apply dateStage_frame in Hd as (_ & _ & Ht2 & Hmt2 & _).
  apply timeStage_cases in Ht as [[Hm _]|[_ (v & Hv & ->)]]; [congruence|].
  simpl. rewrite <- Ht1, <- Ht2. exact Hv.
Qed.

(** A hook whose date or time block rejects its field throws. *)
Lemma pre_save_rejects (h : Host) (db : list EventDocument) (doc : EventDocument) :
  (isModified doc "date" = true /\ exists m, normalizeDate h (date doc) = Throw m)
  \/ (isModified doc "time" = true /\ exists m, normalizeTime (time doc) = Throw m) ->
  exists m', pre_save h db doc = Some (Throw m').
Proof.
  intros H. destruct (pre_save_returns h db doc) as [[d'|m'] Hr]; [|eauto].
  exfalso. destruct H as [[Hmod (m & Hm)]|[Hmod (m & Hm)]].
  - rewrite (pre_save_date h db doc d' Hmod Hr) in Hm. discriminate.
  - rewrite (pre_save_time h db doc d' Hmod Hr) in Hm. discriminate.
Qed.

(** A stored document whose title is assigned the value it holds is not
    marked as modified, and saving it again changes nothing. *)
Lemma rewrite_same_title_unmodified (doc : EventDocument) :
  isNew doc = false ->
  isModified doc "title" = false ->
  isModified (assign_title (title doc) doc) "title" = false.
Proof.
  intros Hnew Hmod. unfold isModified at 1. simpl. unfold markModified.
  rewrite Hmod, Hnew, String.eqb_refl. exact Hmod.
Qed.

Lemma resave_stored (h : Host) (db : list EventDocument) (d0 : EventDocument) :
  save h db (assign_title (title (stored d0)) (stored d0))
  = Some (Ok (persist (stored d0) db, stored d0)).
Proof.
  unfold save, pre_save, slugStage, assign_title, isModified, markModified.
  simpl. rewrite String.eqb_refl. reflexivity.
Qed.

(** C8. The hook assigns the slug only when the title is marked as
    modified, the date only when the date is, the time only when the time
    is, and no other field; assigning to the title of a stored document the
    value it already holds does not mark it, so saving that document again
    succeeds and stores it unchanged, slug included. *)
Theorem resave_keeps_slug :
  forall (h : Host) (db : list EventDocument) (doc : EventDocument),
    (forall d', pre_save h db doc = Some (Ok d') ->
       otherFieldsEqual doc d'
       /\ (isModified doc "title" = false -> slug d' = slug doc)
       /\ (isModified doc "date" = false -> date d' = date doc)
       /\ (isModified doc "time" = false -> time d' = time doc))
    /\ (isNew doc = false -> isModified doc "title" = false ->
        isModified (assign_title (title doc) doc) "title" = false)
    /\ (forall (h' : Host) (db1 : list EventDocument) (d1 : EventDocument),
          save h db doc = Some (Ok (db1, d1)) ->
          save h' db1 (assign_title (title d1) d1)
          = Some (Ok (persist d1 db1, d1))).
Proof.
  intros h db doc. split; [|split].
  - intros d' Hpre.
    apply pre_save_stages in Hpre as (d1 & d2 & Hs & Hd & Ht).
    apply slugStage_frame in Hs as (Ho1 & Hd1 & Ht1 & Hmd1 & Hmt1 & Hs1).
    apply dateStage_frame in Hd as (Ho2 & Hs2 & Ht2 & Hmt2 & Hd2).
    apply timeStage_frame in Ht as (Ho3 & Hs3 & Hd3 & Ht3).
    split; [eauto using otherFieldsEqual_trans|].
    split; [|split].
    + intros Hm. rewrite Hs3, Hs2. auto.
    + intros Hm. rewrite Hd3, Hd2; [exact Hd1|]. congruence.
    + intros Hm. rewrite Ht3; [congruence|]. congruence.
  - apply rewrite_same_title_unmodified.
  - intros h' db1 d1 Hsave.
    apply save_inv in Hsave as (d0 & _ & _ & ->).
    apply resave_stored.
Qed.

Lemma resave_keeps_slug_witness :
  exists (db1 db2 : list EventDocument) (d1 d2 : EventDocument),
    save sampleHost []
      (newEvent idA "Dev Meetup!" "2024-03-09T21:05:00.123Z" "9:30 AM")
    = Some (Ok (db1, d1))
    /\ save sampleHost db1 (assign_title "Dev Meetup!" d1) = Some (Ok (db2, d2))
    /\ slug d1 = "dev-meetup" /\ slug d2 = "dev-meetup".
Proof.
  do 4 eexists.
  split; [vm_compute; reflexivity|].
  split.
  - apply (proj2 (proj2 (resave_keeps_slug sampleHost []
             (newEvent idA "Dev Meetup!" "2024-03-09T21:05:00.123Z" "9:30 AM")))
             sampleHost _ _ eq_refl).
  - split; reflexivity.
Defined.

End FrameClaims.

(** ** The Event model: time normalization *)

Module TimeFacts.
Import JS EventModel Vocabulary StringFacts.

(** *** Character classes *)

Lemma separator_class (c : ascii) :
  isSeparator c = true -> isDigit c = false.
Proof.
  destruct c as [[] [] [] [] [] [] [] []]; vm_compute; intros H;
    first [reflexivity | discriminate H].
Qed.

Lemma whiteSpace_class (c : ascii) :
  isWhiteSpace c = true -> isDigit c = false /\ isSeparator c = false.
Proof.
  destruct c as [[] [] [] [] [] [] [] []]; vm_compute; intros H;
    first [split; reflexivity | discriminate H].
Qed.

Lemma meridiem_letter_class (c : ascii) :
  sameLetter c "A" || sameLetter c "P" = true ->
  isDigit c = false /\ isSeparator c = false /\ isWhiteSpace c = false.
Proof.
  destruct c as [[] [] [] [] [] [] [] []]; vm_compute; intros H;
    first [repeat split; reflexivity | discriminate H].
Qed.

Lemma isMeridiem_letters (s : string) :
  isMeridiem s = true ->
  exists x y, s = String x (String y "")
              /\ sameLetter x "A" || sameLetter x "P" = true
              /\ sameLetter y "M" = true
              /\ (sameLetter x "A" = false -> sameLetter x "P" = true).
Proof.
  unfold isMeridiem. intros H.
  destruct s as [|x [|y [|z s]]]; simpl in H.
  - discriminate H.
  - destruct (Ascii.eqb (upperChar x) "A"), (Ascii.eqb (upperChar x) "P");
      discriminate H.
  - exists x, y. split; [reflexivity|].
    unfold sameLetter.
    change (upperChar "A") with "A"%char.
    change (upperChar "P") with "P"%char.
    change (upperChar "M") with "M"%char.
    destruct (Ascii.eqb (upperChar x) "A"), (Ascii.eqb (upperChar x) "P"),
      (Ascii.eqb (upperChar y) "M"); simpl in *; try discriminate H; auto.
  - destruct (Ascii.eqb (upperChar x) "A"), (Ascii.eqb (upperChar x) "P"),
      (Ascii.eqb (upperChar y) "M"); simpl in H; discriminate H.
Qed.

Lemma letters_isMeridiem (x y : ascii) :
  (sameLetter x "A" && sameLetter y "M")
  || (sameLetter x "P" && sameLetter y "M") = true ->
  isMeridiem (String x (String y "")) = true.
Proof.
  unfold isMeridiem, sameLetter. simpl.
  change (upperChar "A") with "A"%char.
  change (upperChar "P") with "P"%char.
  change (upperChar "M") with "M"%char.
  destruct (Ascii.eqb (upperChar x) "A"), (Ascii.eqb (upperChar x) "P"),
    (Ascii.eqb (upperChar y) "M"); simpl; auto.
Qed.

(** *** The matcher accepts every text of the shape *)

Section Complete.
Variable R : Type.

Lemma digits12_two (a b : ascii) (s2 : string)
    (k : string -> string -> option R) (r : R) :
  isDigit a = true -> isDigit b = true ->
  k (String a (String b "")) s2 = Some r ->
  digits12 R (String a (String b s2)) k = Some r.
Proof.
  intros Ha Hb Hk. unfold digits12. rewrite Ha, Hb, Hk. reflexivity.
Qed.

Lemma digits12_one (a : ascii) (s1 : string) (k : string -> string -> option R) :
  isDigit a = true -> startsWith isDigit s1 = false ->
  digits12 R (String a s1) k = k (String a "") s1.
Proof.
  intros Ha Hs. unfold digits12. rewrite Ha.
  destruct s1 as [|b s2]; [reflexivity|].
  simpl in Hs. rewrite Hs. reflexivity.
Qed.

Lemma optMinutes_some (c a b : ascii) (s3 : string)
    (k : option string -> string -> option R) (r : R) :
  isSeparator c = true -> isDigit a = true -> isDigit b = true ->
  k (Some (String a (String b ""))) s3 = Some r ->
  optMinutes R (String c (String a (String b s3))) k = Some r.
Proof.
  intros Hc Ha Hb Hk. unfold optMinutes. rewrite Hc, Ha, Hb, Hk. reflexivity.
Qed.

Lemma optMinutes_none (s : string) (k : option string -> string -> option R) :
  startsWith isSeparator s = false -> optMinutes R s k = k None s.
Proof.
  intros Hs. unfold optMinutes.
  destruct s as [|c [|a [|b s3]]]; try reflexivity.
  simpl in Hs. rewrite Hs. reflexivity.
Qed.

Lemma whiteSpaces_gap (gap s : string) (k : string -> option R) (r : R) :
  allChars isWhiteSpace gap = true -> startsWith isWhiteSpace s = false ->
  k s = Some r ->
  whiteSpaces R (gap ++ s) k = Some r.
Proof.
  intros Hgap Hs Hk. induction gap as [|c gap IH]; simpl.
  - destruct s as [|c s']; [exact Hk|].
    simpl in Hs |- *. rewrite Hs. exact Hk.
  - simpl in Hgap. apply andb_true_iff in Hgap as [Hc Hgap].
    rewrite Hc, (IH Hgap). reflexivity.
Qed.

Lemma meridiemGroup_letters (x y : ascii) (s2 : string)
    (k : string -> string -> option R) (r : R) :
  isMeridiem (String x (String y "")) = true ->
  k (String x (String y "")) s2 = Some r ->
  meridiemGroup R (String x (String y s2)) k = Some r.
Proof.
  intros Hm Hk. apply isMeridiem_letters in Hm as (x' & y' & [= <- <-] & _ & Hy & Hx).
  unfold meridiemGroup. rewrite Hy, !andb_true_r.
  destruct (sameLetter x "A").
  - rewrite Hk. reflexivity.
  - rewrite (Hx eq_refl). simpl. exact Hk.
Qed.

Lemma optMeridiem_some (gap : string) (x y : ascii) (s2 : string)
    (k : option string -> string -> option R) (r : R) :
  allChars isWhiteSpace gap = true ->
  isMeridiem (String x (String y "")) = true ->
  k (Some (String x (String y ""))) s2 = Some r ->
  optMeridiem R (gap ++ String x (String y s2)) k = Some r.
Proof.
  intros Hgap Hm Hk. unfold optMeridiem.
  rewrite (whiteSpaces_gap gap (String x (String y s2)) _ r); auto.
  - destruct (isMeridiem_letters _ Hm) as (x' & y' & [= <- <-] & Hx & _).
    apply meridiem_letter_class in Hx. simpl. apply Hx.
  - apply meridiemGroup_letters; assumption.
Qed.

End Complete.

Lemma meridiemTail_start (x : option (string * string)) :
  meridiemOk x = true ->
  startsWith isDigit (meridiemTail x) = false
  /\ startsWith isSeparator (meridiemTail x) = false.
Proof.
  destruct x as [[gap letters]|]; simpl; [|auto].
  intros H. apply andb_true_iff in H as [Hgap Hm].
  destruct gap as [|c gap]; simpl.
  - apply isMeridiem_letters in Hm as (a & b & -> & Ha & _).
    apply meridiem_letter_class in Ha. simpl. split; apply Ha.
  - simpl in Hgap. apply andb_true_iff in Hgap as [Hc _].
    apply whiteSpace_class, Hc.
Qed.

Lemma minuteTail_start (m : option (ascii * string)) (s : string) :
  minuteOk m = true -> startsWith isDigit s = false ->
  startsWith isDigit (minuteTail m ++ s) = false.
Proof.
  destruct m as [[sep mm]|]; simpl; [|auto].
  intros H _. apply andb_true_iff in H as [Hsep _].
  apply separator_class, Hsep.
Qed.

Lemma timeRegex_complete (p : TimeText) :
  wellFormed p = true ->
  timeRegex (render p)
  = Some (hourText p, option_map snd (minuteText p),
          option_map snd (meridiemText p)).
Proof.
  destruct p as [H M X]. unfold wellFormed, render.
  cbn [hourText minuteText meridiemText].
  intros Hwf. apply andb_true_iff in Hwf as [Hwf HX].
  apply andb_true_iff in Hwf as [HH HM].
  destruct (meridiemTail_start X HX) as [HXd HXs].
  pose proof (minuteTail_start M (meridiemTail X) HM HXd) as HMd.
  (* the rest of the pattern, from the meridiem on *)
  assert (Hmer : forall (m1 : string) (m2 : option string),
    optMeridiem _ (meridiemTail X)
      (fun m3 s3 => match s3 with
                    | EmptyString => Some (m1, m2, m3)
                    | _ => None
                    end)
    = Some (m1, m2, option_map snd X)).
  { intros m1 m2. destruct X as [[gap letters]|]; [|reflexivity].
    simpl in HX. apply andb_true_iff in HX as [Hgap Hlet].
    destruct (isMeridiem_letters _ Hlet) as (x & y & -> & _).
    cbn [meridiemTail option_map snd]. apply optMeridiem_some; auto. }
  (* from the minutes on *)
  assert (Hmin : forall m1 : string,
    optMinutes _ (minuteTail M ++ meridiemTail X)
      (fun m2 s2 =>
         optMeridiem _ s2
           (fun m3 s3 => match s3 with
                         | EmptyString => Some (m1, m2, m3)
                         | _ => None
                         end))
    = Some (m1, option_map snd M, option_map snd X)).
  { intros m1. destruct M as [[sep mm]|].
    - simpl in HM. apply andb_true_iff in HM as [Hsep Hmm].
      destruct mm as [|a [|b [|c mm]]]; try discriminate Hmm.
      simpl in Hmm. apply andb_true_iff in Hmm as [Ha Hb].
      cbn [minuteTail append option_map snd]. apply optMinutes_some; auto.
    - cbn [minuteTail append option_map].
      rewrite optMinutes_none; [apply Hmer|exact HXs]. }
  unfold timeRegex.
  destruct H as [|a [|b [|c H]]]; try discriminate HH.
  - simpl in HH. cbn [append].
    rewrite digits12_one; [apply Hmin|exact HH|exact HMd].
  - simpl in HH. apply andb_true_iff in HH as [Ha Hb]. cbn [append].
    apply digits12_two; auto.
Qed.

(** *** The matcher accepts only texts of the shape *)

Section Sound.
Variable R : Type.

Lemma digits12_inv (s : string) (k : string -> string -> option R) (r : R) :
  digits12 R s k = Some r ->
  exists m s1, s = m ++ s1 /\ oneOrTwoDigits m = true /\ k m s1 = Some r.
Proof.
  unfold digits12. destruct s as [|a s1]; [discriminate|].
  destruct (isDigit a) eqn:Ha; [|discriminate].
  assert (Hone : k (String a "") s1 = Some r ->
                 exists m s1', String a s1 = m ++ s1'
                   /\ oneOrTwoDigits m = true /\ k m s1' = Some r).
  { intros H. exists (String a ""), s1. auto. }
  destruct s1 as [|b s2]; [exact Hone|].
  destruct (isDigit b) eqn:Hb; [|exact Hone].
  destruct (k (String a (String b "")) s2) as [r'|] eqn:Hk; [|exact Hone].
  intros [= <-]. exists (String a (String b "")), s2.
  simpl. rewrite Ha, Hb. auto.
Qed.

Lemma optMinutes_inv (s : string) (k : option string -> string -> option R)
    (r : R) :
  optMinutes R s k = Some r ->
  (exists c mm s3, s = String c (mm ++ s3) /\ isSeparator c = true
                   /\ twoDigits mm = true /\ k (Some mm) s3 = Some r)
  \/ k None s = Some r.
Proof.
  unfold optMinutes.
  destruct s as [|c [|a [|b s3]]]; try (intros H; right; exact H).
  destruct (isSeparator c && isDigit a && isDigit b) eqn:Hc;
    [|intros H; right; exact H].
  destruct (k (Some (String a (String b ""))) s3) as [r'|] eqn:Hk;
    [|intros H; right; exact H].
  intros [= <-]. left. exists c, (String a (String b "")), s3.
  apply andb_true_iff in Hc as [Hc Hb]. apply andb_true_iff in Hc as [Hc Ha].
  simpl. rewrite Ha, Hb. auto.
Qed.

Lemma whiteSpaces_inv (s : string) (k : string -> option R) (r : R) :
  whiteSpaces R s k = Some r ->
  exists gap s1, s = gap ++ s1 /\ allChars isWhiteSpace gap = true
                 /\ k s1 = Some r.
Proof.
  induction s as [|c s IH]; simpl.
  - intros H. exists "", "". auto.
  - assert (Hhere : k (String c s) = Some r ->
                    exists gap s1, String c s = gap ++ s1
                      /\ allChars isWhiteSpace gap = true /\ k s1 = Some r).
    { intros H. exists "", (String c s). auto. }
    destruct (isWhiteSpace c) eqn:Hc; [|exact Hhere].
    destruct (whiteSpaces R s k) as [r'|] eqn:Hw; [|exact Hhere].
    intros [= <-]. destruct (IH eq_refl) as (gap & s1 & -> & Hgap & Hk).
    exists (String c gap), s1. simpl. rewrite Hc, Hgap. auto.
Qed.

Lemma meridiemGroup_inv (s : string) (k : string -> string -> option R) (r : R) :
  meridiemGroup R s k = Some r ->
  exists m s2, s = m ++ s2 /\ isMeridiem m = true /\ k m s2 = Some r.
Proof.
  unfold meridiemGroup. destruct s as [|a [|b s2]]; try discriminate.
  intros H. exists (String a (String b "")), s2.
  split; [reflexivity|].
  destruct (sameLetter a "A" && sameLetter b "M") eqn:H1.
  - split; [apply letters_isMeridiem; rewrite H1; reflexivity|].
    destruct (k (String a (String b "")) s2) as [r'|] eqn:Hk; [exact H|].
    simpl in H. destruct (sameLetter a "P" && sameLetter b "M"); [|discriminate].
    congruence.
  - simpl in H.
    destruct (sameLetter a "P" && sameLetter b "M") eqn:H2; [|discriminate].
    split; [apply letters_isMeridiem; rewrite H2; apply orb_true_r|exact H].
Qed.

Lemma optMeridiem_inv (s : string) (k : option string -> string -> option R)
    (r : R) :
  optMeridiem R s k = Some r ->
  (exists gap m s2, s = gap ++ m ++ s2 /\ allChars isWhiteSpace gap = true
                    /\ isMeridiem m = true /\ k (Some m) s2 = Some r)
  \/ k None s = Some r.
Proof.
  unfold optMeridiem.
  destruct (whiteSpaces R s _) as [r'|] eqn:Hw; simpl; [|auto].
  intros [= <-]. left.
  apply whiteSpaces_inv in Hw as (gap & s1 & -> & Hgap & Hm).
  apply meridiemGroup_inv in Hm as (m & s2 & -> & Hm & Hk).
  exists gap, m, s2. auto.
Qed.

End Sound.

Lemma append_empty_r (s : string) : s ++ "" = s.
Proof. induction s as [|c s IH]; simpl; [reflexivity|]. rewrite IH. reflexivity. Qed.

Lemma timeRegex_sound (t m1 : string) (m2 m3 : option string) :
  timeRegex t = Some (m1, m2, m3) ->
  exists p, wellFormed p = true /\ t = render p /\ hourText p = m1
            /\ option_map snd (minuteText p) = m2
            /\ option_map snd (meridiemText p) = m3.
Proof.
  unfold timeRegex. intros H.
  apply digits12_inv in H as (h & s1 & -> & Hh & H).
  assert (Hend : forall (a : string) (b c : option string) (s3 : string),
            match s3 with
            | EmptyString => Some (a, b, c)
            | _ => None
            end = Some (m1, m2, m3) ->
            s3 = "" /\ a = m1 /\ b = m2 /\ c = m3).
  { intros a b c [|x s3]; [|discriminate]. intros [= -> -> ->]. auto. }
  assert (Hmer : forall (b : option string) (s2 : string),
            optMeridiem _ s2
              (fun m3' s3 => match s3 with
                             | EmptyString => Some (h, b, m3')
                             | _ => None
                             end) = Some (m1, m2, m3) ->
            exists x, meridiemOk x = true /\ s2 = meridiemTail x
                      /\ h = m1 /\ b = m2 /\ option_map snd x = m3).
  { intros b s2 Hm. apply optMeridiem_inv in Hm as [(gap & m & s3 & -> & Hgap & Hm & Hk)|Hk];
      apply Hend in Hk as (-> & -> & -> & <-).
    - exists (Some (gap, m)). simpl. rewrite Hgap, Hm, append_empty_r. auto.
    - exists None. auto. }
  apply optMinutes_inv in H as [(c & mm & s3 & -> & Hc & Hmm & H)|H];
    apply Hmer in H as (x & Hx & -> & -> & <- & <-).
  - exists {| hourText := m1; minuteText := Some (c, mm); meridiemText := x |}.
    unfold wellFormed, render. simpl. rewrite Hh, Hc, Hmm, Hx. auto.
  - exists {| hourText := m1; minuteText := None; meridiemText := x |}.
    unfold wellFormed, render. simpl. rewrite Hh, Hx. auto.
Qed.

End TimeFacts.

Module TimeClaims.
Import JS EventModel Vocabulary Samples StringFacts TimeFacts EventHookFacts.
Import FrameClaims.

Lemma applyMeridiem_hour24 (p : TimeText) :
  wellFormed p = true ->
  applyMeridiem (option_map snd (meridiemText p))
    (Number_of_digits (hourText p)) = hour24 p.
Proof.
  unfold wellFormed, hour24, applyMeridiem. intros Hwf.
  apply andb_true_iff in Hwf as [_ HX].
  destruct (meridiemText p) as [[gap letters]|]; [|reflexivity].
  simpl in HX |- *. apply andb_true_iff in HX as [_ Hm].
  unfold isMeridiem in Hm.
  destruct (String.eqb_spec (toUpperCase letters) "PM") as [->|Hpm].
  - simpl. reflexivity.
  - rewrite orb_false_r in Hm. rewrite Hm. simpl. reflexivity.
Qed.

Lemma clockFields_render (p : TimeText) :
  wellFormed p = true ->
  clockFields (render p) = Some (hour24 p, minuteOf p).
Proof.
  intros Hwf. unfold clockFields. rewrite (timeRegex_complete p Hwf).
  rewrite (applyMeridiem_hour24 p Hwf).
  unfold minuteOf. destruct (minuteText p) as [[sep mm]|]; reflexivity.
Qed.

Lemma clockFields_shape (t : string) :
  (forall p, wellFormed p = true -> t <> render p) ->
  clockFields t = None.
Proof.
  intros H. unfold clockFields.
  destruct (timeRegex t) as [[[m1 m2] m3]|] eqn:Hm; [|reflexivity].
  apply timeRegex_sound in Hm as (p & Hwf & Ht & _).
  contradiction (H p Hwf Ht).
Qed.

Lemma normalizeTime_fields (time : string) (h m : N) :
  clockFields (trim time) = Some (h, m) ->
  ((h <= 23)%N -> (m <= 59)%N -> normalizeTime time = Ok (clockString h m))
  /\ ((23 < h)%N \/ (59 < m)%N -> normalizeTime time = Throw invalidTime).
Proof.
  intros Hf. unfold normalizeTime. rewrite Hf. split.
  - intros Hh Hm.
    replace (23 <? h)%N with false by (symmetry; apply N.ltb_ge; exact Hh).
    replace (59 <? m)%N with false by (symmetry; apply N.ltb_ge; exact Hm).
    replace (h <? 0)%N with false by (symmetry; apply N.ltb_ge; lia).
    replace (m <? 0)%N with false by (symmetry; apply N.ltb_ge; lia).
    reflexivity.
  - intros [Hh|Hm].
    + apply N.ltb_lt in Hh. rewrite Hh, orb_true_r. reflexivity.
    + apply N.ltb_lt in Hm. rewrite Hm, !orb_true_r. reflexivity.
Qed.

(** C3, as stated, fails: "21.05" has two hour digits before a dot, which
    is none of the shapes H, HH, H:MM, HH:MM and H.MM, and the hook stores
    it as "21:05" instead of rejecting it. *)
Lemma time_shape_counterexample :
  ~ ListedShape "21.05"
  /\ normalizeTime "21.05" = Ok "21:05"
  /\ option_map (fun r => match r with
                          | Ok (_, d) => Ok (time d)
                          | Throw m => Throw m
                          end)
       (save sampleHost []
          (newEvent idA "Dev Meetup" "2024-03-09T21:05:00.123Z" "21.05"))
     = Some (Ok "21:05").
Proof.
  split; [|split; vm_compute; reflexivity].
  intros (p & Hwf & Hlisted & Ht).
  pose proof (timeRegex_complete p Hwf) as Hm. rewrite <- Ht in Hm.
  vm_compute in Hm. injection Hm as Hh Hmin Hmer.
  destruct p as [H M X]. simpl in *. subst H.
  destruct X as [[gap letters]|]; [discriminate Hmer|].
  destruct M as [[sep mm]|]; [|discriminate Hmin].
  simpl in Hmin. injection Hmin as <-.
  unfold render in Ht. simpl in Ht. injection Ht as <-.
  vm_compute in Hlisted. discriminate Hlisted.
Qed.

(** C3, amended.  A time whose text, once trimmed, is one or two hour
    digits, optionally a colon or a dot with two minute digits (so H, HH,
    H:MM, HH:MM, H.MM and HH.MM), optionally white space and AM or PM in
    any letter case, is normalized to zero-padded HH:MM of the converted
    hour and the minutes when these are at most 23 and 59, and rejected
    when they are not; a time whose trimmed text has no such shape is
    rejected.  A hook that runs on a modified time stores what the
    normalization gives and throws when the normalization rejects. *)
Theorem time_normalization :
  (forall time : string,
     (forall p, wellFormed p = true -> trim time = render p ->
        ((hour24 p <= 23)%N -> (minuteOf p <= 59)%N ->
         normalizeTime time = Ok (clockString (hour24 p) (minuteOf p)))
        /\ ((23 < hour24 p)%N \/ (59 < minuteOf p)%N ->
            normalizeTime time = Throw invalidTime))
     /\ ((forall p, wellFormed p = true -> trim time <> render p) ->
         normalizeTime time = Throw invalidTime))
  /\ (forall (h : Host) (db : list EventDocument) (doc : EventDocument),
        isModified doc "time" = true ->
        (forall d', pre_save h db doc = Some (Ok d') ->
                    normalizeTime (time doc) = Ok (time d'))
        /\ (normalizeTime (time doc) = Throw invalidTime ->
            exists m, pre_save h db doc = Some (Throw m)))
  /\ normalizeTime "9:30 AM" = Ok "09:30"
  /\ normalizeTime "21:05" = Ok "21:05"
  /\ normalizeTime "12:00 AM" = Ok "00:00".
Proof.
  split; [|split; [|repeat split; vm_compute; reflexivity]].
  - intros time. split.
    + intros p Hwf Ht. apply normalizeTime_fields.
      rewrite Ht. apply clockFields_render, Hwf.
    + intros Hnone. unfold normalizeTime.
      rewrite (clockFields_shape _ Hnone). reflexivity.
  - intros h db doc Hmod. split.
    + intros d'. apply pre_save_time, Hmod.
    + intros Hthrow. apply pre_save_rejects. right. eauto.
Qed.

Lemma time_normalization_witness :
  normalizeTime "  7.45  pm " = Ok "19:45"
  /\ normalizeTime "12:75" = Throw invalidTime
  /\ exists m,
       pre_save sampleHost []
         (newEvent idA "Dev Meetup" "2024-03-09T21:05:00.123Z" "12:75")
       = Some (Throw m).
Proof.
  pose (p := {| hourText := "7"; minuteText := Some ("."%char, "45");
                meridiemText := Some ("  ", "pm") |}).
  pose (q := {| hourText := "12"; minuteText := Some (":"%char, "75");
                meridiemText := None |}).
  split; [|split].
  - apply (proj1 (proj1 (proj1 time_normalization "  7.45  pm ") p
                    eq_refl eq_refl)); vm_compute; discriminate.
  - apply (proj2 (proj1 (proj1 time_normalization "12:75") q
                    eq_refl eq_refl)).
    right. vm_compute. reflexivity.
  - apply (proj2 (proj1 (proj2 time_normalization) sampleHost []
                    (newEvent idA "Dev Meetup" "2024-03-09T21:05:00.123Z" "12:75")
                    eq_refl)).
    vm_compute. reflexivity.
Defined.

(** *** Idempotence *)

Lemma normalizeTime_Ok_inv (t s : string) :
  normalizeTime t = Ok s ->
  exists h m : N, (h <= 23)%N /\ (m <= 59)%N /\ s = clockString h m.
Proof.
  unfold normalizeTime.
  destruct (clockFields (trim t)) as [[h m]|]; [|discriminate].
  destruct (23 <? h)%N eqn:Hh; [rewrite orb_true_r; discriminate|].
  destruct (59 <? m)%N eqn:Hm; [rewrite !orb_true_r; discriminate|].
  destruct ((h <? 0)%N || false || (m <? 0)%N || false); [discriminate|].
  intros [= <-]. exists h, m.
  apply N.ltb_ge in Hh. apply N.ltb_ge in Hm. auto.
Qed.

(** Every clock value HH:MM is read back as itself. *)
Lemma clock_table :
  forallb (fun h =>
    forallb (fun m =>
      match normalizeTime (clockString (N.of_nat h) (N.of_nat m)) with
      | Ok s => String.eqb s (clockString (N.of_nat h) (N.of_nat m))
      | Throw _ => false
      end) (seq 0 60)) (seq 0 24) = true.
Proof. vm_compute. reflexivity. Qed.

Lemma clockString_fixed (h m : N) :
  (h <= 23)%N -> (m <= 59)%N ->
  normalizeTime (clockString h m) = Ok (clockString h m).
Proof.
  intros Hh Hm. pose proof clock_table as T.
  rewrite forallb_forall in T.
  specialize (T (N.to_nat h)). rewrite forallb_forall in T.
  assert (Hin : In (N.to_nat h) (seq 0 24)) by (apply in_seq; lia).
  specialize (T Hin (N.to_nat m)).
  assert (Him : In (N.to_nat m) (seq 0 60)) by (apply in_seq; lia).
  specialize (T Him). rewrite !N2Nat.id in T.
  destruct (normalizeTime (clockString h m)) as [s|e]; [|discriminate].
  apply String.eqb_eq in T. rewrite T. reflexivity.
Qed.

(** C10. Time normalization is idempotent: what it stores for an accepted
    input is a zero-padded HH:MM string that it accepts and stores
    unchanged. *)
Theorem normalizeTime_idempotent :
  forall t s : string,
    normalizeTime t = Ok s ->
    (exists h m : N, (h <= 23)%N /\ (m <= 59)%N /\ s = clockString h m)
    /\ normalizeTime s = Ok s.
Proof.
  intros t s H. pose proof (normalizeTime_Ok_inv t s H) as Hs.
  split; [exact Hs|].
  destruct Hs as (h & m & Hh & Hm & ->).
  apply clockString_fixed; assumption.
Qed.

Lemma normalizeTime_idempotent_witness :
  normalizeTime "9:30 PM" = Ok "21:30" /\ normalizeTime "21:30" = Ok "21:30".
Proof.
  split; [reflexivity|].
  apply (proj2 (normalizeTime_idempotent "9:30 PM" "21:30" eq_refl)).
Defined.

End TimeClaims.

(** ** The Event model: date normalization *)

Module DateClaims.
Import JS EventModel Vocabulary Samples StringFacts EventHookFacts FrameClaims.

Local Open Scope Z_scope.

(** *** The calendar fields *)

Lemma civilFromDays_bounds (z : Z) :
  let '(_, m, d) := civilFromDays z in 1 <= m <= 12 /\ 1 <= d <= 31.
Proof.
  unfold civilFromDays.
  set (era := (z + 719468) / 146097).
  set (doe := z + 719468 - era * 146097).
  assert (Hdoe : 0 <= doe < 146097).
  { subst doe era. Z.to_euclidean_division_equations; lia. }
  clearbody doe. clear era.
  set (yoe := (doe - doe / 1460 + doe / 36524 - doe / 146096) / 365).
  set (doy := doe - (365 * yoe + yoe / 4 - yoe / 100)).
  assert (Hdoy : 0 <= doy <= 365).
  { subst doy yoe. Z.to_euclidean_division_equations; lia. }
  clearbody doy. clear yoe.
  set (mp := (5 * doy + 2) / 153).
  assert (Hmp : 0 <= mp <= 11).
  { subst mp. Z.to_euclidean_division_equations; lia. }
  split.
  - destruct (mp <? 10) eqn:Hlt; [apply Z.ltb_lt in Hlt|apply Z.ltb_ge in Hlt]; lia.
  - subst mp. Z.to_euclidean_division_equations; lia.
Qed.

(** *** The rendering *)

Lemma two_digit_table :
  forallb (fun n => twoDigits (digitsOfZ 2 (Z.of_nat n))) (seq 0 100) = true.
Proof. vm_compute. reflexivity. Qed.

Lemma four_digit_table :
  forallb (fun n =>
    match isoYear (Z.of_nat n) with
    | String a (String b (String c (String d EmptyString))) =>
        isDigit a && isDigit b && isDigit c && isDigit d
    | _ => false
    end) (seq 0 (Z.to_nat 10000)) = true.
Proof. vm_compute. reflexivity. Qed.

Lemma digitsOfZ_two (n : Z) :
  0 <= n < 100 ->
  exists a b, digitsOfZ 2 n = String a (String b "")
              /\ isDigit a = true /\ isDigit b = true.
Proof.
  intros Hn. pose proof two_digit_table as T. rewrite forallb_forall in T.
  specialize (T (Z.to_nat n)). rewrite Z2Nat.id in T by lia.
  assert (Hin : In (Z.to_nat n) (seq 0 100)) by (apply in_seq; lia).
  specialize (T Hin).
  destruct (digitsOfZ 2 n) as [|a [|b [|c s]]]; try discriminate T.
  simpl in T. apply andb_true_iff in T as [Ha Hb]. eauto.
Qed.

Lemma isoYear_four (y : Z) :
  0 <= y <= 9999 ->
  exists a b c d, isoYear y = String a (String b (String c (String d "")))
                  /\ isDigit a = true /\ isDigit b = true
                  /\ isDigit c = true /\ isDigit d = true.
Proof.
  intros Hy. pose proof four_digit_table as T. rewrite forallb_forall in T.
  specialize (T (Z.to_nat y)). rewrite Z2Nat.id in T by lia.
  assert (Hin : In (Z.to_nat y) (seq 0 (Z.to_nat 10000))) by (apply in_seq; lia).
  specialize (T Hin).
  destruct (isoYear y) as [|a [|b [|c [|d [|e s]]]]]; try discriminate T.
  apply andb_true_iff in T as [T Hd]. apply andb_true_iff in T as [T Hc].
  apply andb_true_iff in T as [Ha Hb].
  exists a, b, c, d. auto.
Qed.

(** For a year of four digits the first ten characters of the ISO string
    are the calendar date. *)
Lemma iso_date_in_range (t : Z) :
  0 <= fst (fst (civilFromDays (Day t))) <= 9999 ->
  isIsoDate (slice0 10 (toISOString t)) = true.
Proof.
  unfold toISOString.
  pose proof (civilFromDays_bounds (Day t)) as Hb.
  destruct (civilFromDays (Day t)) as [[y m] d]. simpl fst.
  destruct Hb as [Hm Hd]. intros Hy.
  destruct (isoYear_four y Hy) as (ya & yb & yc & yd & -> & Hya & Hyb & Hyc & Hyd).
  destruct (digitsOfZ_two m) as (ma & mb & -> & Hma & Hmb); [lia|].
  destruct (digitsOfZ_two d) as (da & db & -> & Hda & Hdb); [lia|].
  cbn [append slice0 isIsoDate].
  rewrite Hya, Hyb, Hyc, Hyd, Hma, Hmb, Hda, Hdb. reflexivity.
Qed.

(** *** The date block *)

Lemma normalizeDate_parsed (h : Host) (s : string) (t : Z) :
  Date_parse h s = Some t ->
  normalizeDate h s = Ok (slice0 10 (toISOString t)).
Proof. intros H. unfold normalizeDate. rewrite H. reflexivity. Qed.

Lemma normalizeDate_unparseable (h : Host) (s : string) :
  (exists m, normalizeDate h s = Throw m) <-> Date_parse h s = None.
Proof.
  unfold normalizeDate. destruct (Date_parse h s) as [t|]; split.
  - intros [m Hm]. discriminate.
  - discriminate.
  - reflexivity.
  - eauto.
Qed.

(** C4. The hook throws exactly when the date is unparseable, and stores
    the first ten characters of the ISO string of the parsed date, which
    are YYYY-MM-DD for a year of four digits.  At a date of the year 10000
    ([+010000-01-01], whose time value is 253402300800000) the ISO string
    carries a sign and six year digits, so that what the hook stores,
    [+010000-01], is not a calendar date. *)
Theorem date_expanded_year_stored :
  forall (h : Host) (db : list EventDocument) (doc : EventDocument),
    isModified doc "date" = true ->
    Date_parse h (date doc) = Some 253402300800000 ->
    normalizeDate h (date doc) = Ok "+010000-01"
    /\ isIsoDate "+010000-01" = false
    /\ (forall d', pre_save h db doc = Some (Ok d') -> date d' = "+010000-01").
Proof.
  intros h db doc Hmod Hparse.
  pose proof (normalizeDate_parsed h _ _ Hparse) as Hn.
  assert (Hs : slice0 10 (toISOString 253402300800000) = "+010000-01"%string)
    by (vm_compute; reflexivity).
  rewrite Hs in Hn.
  split; [exact Hn|]. split; [reflexivity|].
  intros d' Hpre. pose proof (pre_save_date h db doc d' Hmod Hpre) as Hd.
  rewrite Hn in Hd. injection Hd as <-. reflexivity.
Qed.

Lemma date_expanded_year_witness :
  exists (db' : list EventDocument) (d' : EventDocument),
    save sampleHost [] (newEvent idA "Dev Meetup" "+010000-01-01" "9:30 AM")
    = Some (Ok (db', d'))
    /\ date d' = "+010000-01"%string
    /\ isIsoDate (date d') = false.
Proof.
  do 2 eexists. split; [vm_compute; reflexivity|].
  destruct (date_expanded_year_stored sampleHost []
              (newEvent idA "Dev Meetup" "+010000-01-01" "9:30 AM")
              eq_refl eq_refl) as (_ & Hiso & Hstored).
  split; [reflexivity|exact Hiso].
Defined.

(** The parts of C4 that hold: the hook throws exactly on an unparseable
    date, and what it stores for a parsed date of a four-digit year is
    YYYY-MM-DD. *)
Lemma date_rejected_iff_unparseable (h : Host) (db : list EventDocument)
    (doc : EventDocument) :
  isModified doc "date" = true ->
  (Date_parse h (date doc) = None ->
   exists m, pre_save h db doc = Some (Throw m))
  /\ (forall d', pre_save h db doc = Some (Ok d') ->
        exists t, Date_parse h (date doc) = Some t
                  /\ date d' = slice0 10 (toISOString t)
                  /\ (0 <= fst (fst (civilFromDays (Day t))) <= 9999 ->
                      isIsoDate (date d') = true)).
Proof.
  intros Hmod. split.
  - intros Hnone. apply pre_save_rejects. left. split; [exact Hmod|].
    apply normalizeDate_unparseable, Hnone.
  - intros d' Hpre. pose proof (pre_save_date h db doc d' Hmod Hpre) as Hd.
    unfold normalizeDate in Hd.
    destruct (Date_parse h (date doc)) as [t|]; [|discriminate].
    injection Hd as Hd. exists t. split; [reflexivity|].
    split; [auto|]. intros Hy. rewrite <- Hd. apply iso_date_in_range, Hy.
Qed.

End DateClaims.

(** ** The Booking model *)

Module BookingClaims.
Import EventModel BookingModel Samples.

Lemma Event_exists_true (events : list EventDocument) (id : ObjectId) :
  Event_exists events id = true <-> exists e, In e events /\ _id e = id.
Proof.
  unfold Event_exists. rewrite existsb_exists. split.
  - intros (e & Hin & He). exists e. split; [exact Hin|].
    apply String.eqb_eq, He.
  - intros (e & Hin & He). exists e. split; [exact Hin|].
    apply String.eqb_eq, He.
Qed.

Lemma Event_exists_false (events : list EventDocument) (id : ObjectId) :
  Event_exists events id = false <-> forall e, In e events -> _id e <> id.
Proof.
  split.
  - intros H e Hin He.
    assert (Ht : Event_exists events id = true)
      by (apply Event_exists_true; eauto).
    congruence.
  - intros H. destruct (Event_exists events id) eqn:He; [|reflexivity].
    apply Event_exists_true in He as (e & Hin & Hid).
    contradiction (H e Hin Hid).
Qed.

(** C5. A Booking save throws "Invalid eventId" when the event reference
    is not a valid identifier; otherwise it throws "Referenced event does
    not exist" when no Event has that identifier, and passes when one
    has. *)
Theorem booking_reference_checked :
  forall (ObjectId_isValid : string -> bool) (events : list EventDocument)
         (doc : BookingDocument),
    (ObjectId_isValid (eventId doc) = false ->
     pre_save ObjectId_isValid events doc = Throw "Invalid eventId")
    /\ (ObjectId_isValid (eventId doc) = true ->
        (forall e, In e events -> _id e <> eventId doc) ->
        pre_save ObjectId_isValid events doc
        = Throw "Referenced event does not exist")
    /\ (ObjectId_isValid (eventId doc) = true ->
        (exists e, In e events /\ _id e = eventId doc) ->
        pre_save ObjectId_isValid events doc = Ok tt).
Proof.
  intros isValid events doc. unfold pre_save. repeat split.
  - intros ->. reflexivity.
  - intros -> Hnone. apply Event_exists_false in Hnone. rewrite Hnone.
    reflexivity.
  - intros -> Hsome. apply Event_exists_true in Hsome. rewrite Hsome.
    reflexivity.
Qed.

Lemma booking_reference_witness :
  pre_save hex24 sampleEvents
    {| eventId := "not-an-id"; email := "a@b.co";
       createdAt := None; updatedAt := None |}
  = Throw "Invalid eventId"
  /\ pre_save hex24 sampleEvents
       {| eventId := idB; email := "a@b.co";
          createdAt := None; updatedAt := None |}
     = Throw "Referenced event does not exist"
  /\ pre_save hex24 sampleEvents
       {| eventId := idA; email := "a@b.co";
          createdAt := None; updatedAt := None |}
     = Ok tt.
Proof.
  split; [|split].
  - apply (proj1 (booking_reference_checked hex24 sampleEvents _)).
    reflexivity.
  - apply (proj1 (proj2 (booking_reference_checked hex24 sampleEvents _)));
      [reflexivity|].
    intros e [<-|[]]. vm_compute. discriminate.
  - apply (proj2 (proj2 (booking_reference_checked hex24 sampleEvents _)));
      [reflexivity|].
    eexists. split; [left; reflexivity|reflexivity].
Defined.

End BookingClaims.

(** ** The connection cache *)

Module CacheClaims.
Import Mongodb.

Lemma length_setNth {A : Type} (n : nat) (x : A) (l : list A) :
  List.length (setNth n x l) = List.length l.
Proof.
  revert n. induction l as [|y l IH]; intros [|n]; simpl; auto.
Qed.

Lemma nth_setNth {A : Type} (n : nat) (x d : A) (l : list A) :
  n < List.length l -> nth n (setNth n x l) d = x.
Proof.
  revert n. induction l as [|y l IH]; intros [|n]; simpl; try lia; auto.
  intros H. apply IH. lia.
Qed.

Lemma initial_invariant : Invariant initial.
Proof. unfold Invariant. simpl. auto. Qed.

Lemma connect_invariant (w : World) :
  Invariant w -> Invariant (fst (connectToDatabase w)).
Proof.
  unfold connectToDatabase, Invariant.
  destruct (conn (cache w)); [auto|].
  destruct (promise (cache w)) as [p|] eqn:Hp; simpl.
  - rewrite Hp. auto.
  - intros [Hnil Ha]. rewrite Hnil, Ha. auto.
Qed.

Lemma settle_invariant (p : nat) (o : Outcome) (w : World) :
  Invariant w -> Invariant (settle p o w).
Proof.
  unfold settle, Invariant.
  destruct (nth_error (promises w) p) as [[| |]|] eqn:Hn; auto.
  destruct o; simpl; rewrite length_setNth.
  - destruct (promise (cache w)) as [q|]; [auto|].
    intros [Hnil _]. rewrite Hnil in Hn. destruct p; discriminate Hn.
  - destruct (promise (cache w)) as [q|]; [auto|].
    intros [Hnil _]. rewrite Hnil in Hn. destruct p; discriminate Hn.
Qed.

Lemma step_invariant (e : Event) (w : World) :
  Invariant w -> Invariant (step e w).
Proof.
  destruct e; simpl; [apply connect_invariant|apply settle_invariant].
Qed.

Lemma run_invariant (trace : list Event) (w : World) :
  Invariant w -> Invariant (run trace w).
Proof.
  revert w. induction trace as [|e trace IH]; intros w Hw; simpl; [exact Hw|].
  apply IH, step_invariant, Hw.
Qed.

Lemma invariant_bounds (w : World) :
  Invariant w -> inFlight w <= 1 /\ attempts w <= 1.
Proof.
  unfold Invariant, inFlight. intros H.
  pose proof (filter_length_le isPending (promises w)) as Hle.
  destruct (promise (cache w)) as [p|].
  - destruct H as (_ & Hl & Ha). lia.
  - destruct H as [Hn Ha]. rewrite Hn in *. simpl in *. lia.
Qed.

(** C6. A call made when an instance is cached returns it and changes
    nothing; a call made when a promise is cached awaits that promise and
    changes nothing; two calls made before any connection exists make one
    attempt, await the same promise and both get the instance it is
    fulfilled with; and in no run are two attempts in flight, nor is more
    than one attempt made. *)
Theorem single_connection_attempt :
  (forall (w : World) (m : MongooseType),
     conn (cache w) = Some m -> connectToDatabase w = (w, Returns m))
  /\ (forall (w : World) (p : nat),
        conn (cache w) = None -> promise (cache w) = Some p ->
        connectToDatabase w = (w, Awaits p))
  /\ (let (w1, r1) := connectToDatabase initial in
      let (w2, r2) := connectToDatabase w1 in
      attempts w1 = 1 /\ attempts w2 = 1 /\ r1 = Awaits 0 /\ r2 = Awaits 0
      /\ inFlight w2 = 1
      /\ forall m : MongooseType,
           let w3 := settle 0 (Connected m) w2 in
           resultIn w3 r1 = Fulfilled m /\ resultIn w3 r2 = Fulfilled m
           /\ conn (cache w3) = Some m /\ attempts w3 = 1)
  /\ (forall trace : list Event,
        inFlight (run trace initial) <= 1 /\ attempts (run trace initial) <= 1).
Proof.
  split; [|split; [|split]].
  - intros w m H. unfold connectToDatabase. rewrite H. reflexivity.
  - intros w p Hc Hp. unfold connectToDatabase. rewrite Hc, Hp. reflexivity.
  - simpl. repeat split; reflexivity.
  - intros trace. apply invariant_bounds, run_invariant, initial_invariant.
Qed.

Lemma single_connection_witness :
  let w := run [Call; Call; Settle 0 (Connected 7)] initial in
  connectToDatabase w = (w, Returns 7)
  /\ attempts w = 1
  /\ connectToDatabase (run [Call] initial) = (run [Call] initial, Awaits 0).
Proof.
  intros w. split; [|split].
  - apply (proj1 single_connection_attempt w 7). reflexivity.
  - reflexivity.
  - apply (proj1 (proj2 single_connection_attempt) (run [Call] initial) 0);
      reflexivity.
Defined.

(** How an attempt ends is what every caller awaiting it gets. *)
Lemma settle_reaches_awaiters (p : nat) (o : Outcome) (w : World) :
  nth_error (promises w) p = Some Pending ->
  resultIn (settle p o w) (Awaits p)
  = match o with
    | Connected m => Fulfilled m
    | Failed reason => Rejected reason
    end.
Proof.
  intros Hp. unfold settle. rewrite Hp.
  assert (Hlt : p < List.length (promises w)).
  { apply nth_error_Some. rewrite Hp. discriminate. }
  destruct o; simpl; apply nth_setNth, Hlt.
Qed.

(** C7. After a failed attempt the rejection reaches the callers that
    await it, but the cache keeps the rejected promise: the next call makes
    no new attempt and awaits the same promise, so it fails for the same
    reason, and no later call or event changes that. *)
Theorem failed_attempt_is_cached :
  forall reason : Reason,
    let w1 := fst (connectToDatabase initial) in
    let w2 := settle 0 (Failed reason) w1 in
    resultIn w2 (snd (connectToDatabase initial)) = Rejected reason
    /\ promise (cache w2) = Some 0
    /\ connectToDatabase w2 = (w2, Awaits 0)
    /\ attempts (fst (connectToDatabase w2)) = 1
    /\ resultIn (fst (connectToDatabase w2)) (snd (connectToDatabase w2))
       = Rejected reason
    /\ forall trace : list Event, run trace w2 = w2.
Proof.
  intros reason w1 w2. repeat split.
  intros trace. induction trace as [|e trace IH]; [reflexivity|].
  simpl. destruct e as [|[|p] o]; [exact IH|exact IH|].
  replace (step (Settle (S p) o) w2) with w2; [exact IH|].
  unfold step, settle. simpl. destruct p; reflexivity.
Qed.

End CacheClaims.

(** ** Further properties of the string primitives *)

Module TrimFacts.
Import JS StringFacts.

Lemma trimStart_whiteSpace (s : string) :
  allChars isWhiteSpace s = true -> trimStart s = "".
Proof.
  induction s as [|c s IH]; simpl; [reflexivity|].
  intros H. apply andb_true_iff in H as [Hc Hs]. rewrite Hc. auto.
Qed.

Lemma trimEnd_whiteSpace (s : string) :
  allChars isWhiteSpace s = true -> trimEnd s = "".
Proof.
  induction s as [|c s IH]; simpl; [reflexivity|].
  intros H. apply andb_true_iff in H as [Hc Hs].
  rewrite (IH Hs), Hc. reflexivity.
Qed.

Lemma trimStart_fixed (s : string) :
  startsWith isWhiteSpace s = false -> trimStart s = s.
Proof. destruct s as [|c s]; simpl; [reflexivity|]. intros ->. reflexivity. Qed.

Lemma trimStart_start (s : string) :
  startsWith isWhiteSpace (trimStart s) = false.
Proof.
  induction s as [|c s IH]; simpl; [reflexivity|].
  destruct (isWhiteSpace c) eqn:Hc; [exact IH|]. simpl. exact Hc.
Qed.

Lemma trimStart_app_l (a s : string) :
  allChars isWhiteSpace a = true -> trimStart (a ++ s) = trimStart s.
Proof.
  induction a as [|c a IH]; simpl; [reflexivity|].
  intros H. apply andb_true_iff in H as [Hc Ha]. rewrite Hc. auto.
Qed.

Lemma trimEnd_app_r (s b : string) :
  allChars isWhiteSpace b = true -> trimEnd (s ++ b) = trimEnd s.
Proof.
  intros Hb. induction s as [|c s IH].
  - simpl. apply trimEnd_whiteSpace, Hb.
  - change (String c s ++ b) with (String c (s ++ b)).
    cbn [trimEnd]. rewrite IH. reflexivity.
Qed.

Lemma trim_app_r (s b : string) :
  allChars isWhiteSpace b = true -> trim (s ++ b) = trim s.
Proof.
  intros Hb. unfold trim. induction s as [|c s IH].
  - simpl. rewrite (trimStart_whiteSpace b Hb). reflexivity.
  - change (String c s ++ b) with (String c (s ++ b)). cbn [trimStart].
    destruct (isWhiteSpace c); [exact IH|].
    apply (trimEnd_app_r (String c s) b Hb).
Qed.

(** White space around a text does not change what [trim] returns. *)
Lemma trim_padding (a s b : string) :
  allChars isWhiteSpace a = true -> allChars isWhiteSpace b = true ->
  trim (a ++ s ++ b) = trim s.
Proof.
  intros Ha Hb. unfold trim. rewrite (trimStart_app_l a _ Ha).
  apply (trim_app_r s b Hb).
Qed.

Lemma trimEnd_start (s : string) :
  startsWith isWhiteSpace s = false ->
  startsWith isWhiteSpace (trimEnd s) = false.
Proof.
  destruct s as [|c s]; simpl; [reflexivity|].
  intros Hc. destruct (trimEnd s); [rewrite Hc|]; simpl; auto.
Qed.

Lemma trimEnd_idempotent (s : string) : trimEnd (trimEnd s) = trimEnd s.
Proof.
  induction s as [|c s IH]; simpl; [reflexivity|].
  destruct (trimEnd s) as [|c' t] eqn:Ht.
  - destruct (isWhiteSpace c) eqn:Hc; simpl; [reflexivity|].
    rewrite Hc. reflexivity.
  - cbn [trimEnd] in IH |- *. rewrite IH. reflexivity.
Qed.

Lemma trim_idempotent (s : string) : trim (trim s) = trim s.
Proof.
  unfold trim.
  rewrite (trimStart_fixed (trimEnd (trimStart s))).
  - apply trimEnd_idempotent.
  - apply trimEnd_start, trimStart_start.
Qed.

Lemma trim_empty_iff (s : string) :
  trim s = "" <-> allChars isWhiteSpace s = true.
Proof.
  unfold trim. split.
  - induction s as [|c s IH]; simpl; [reflexivity|].
    destruct (isWhiteSpace c) eqn:Hc; [exact IH|].
    cbn [trimEnd]. destruct (trimEnd s); [rewrite Hc|]; discriminate.
  - intros H. rewrite (trimStart_whiteSpace s H). reflexivity.
Qed.

Lemma trimStart_no_whiteSpace (s : string) :
  allChars (fun c => negb (isWhiteSpace c)) s = true -> trimStart s = s.
Proof.
  destruct s as [|c s]; simpl; [reflexivity|].
  intros H. apply andb_true_iff in H as [Hc _].
  apply negb_true_iff in Hc. rewrite Hc. reflexivity.
Qed.

Lemma trimEnd_no_whiteSpace (s : string) :
  allChars (fun c => negb (isWhiteSpace c)) s = true -> trimEnd s = s.
Proof.
  induction s as [|c s IH]; simpl; [reflexivity|].
  intros H. apply andb_true_iff in H as [Hc Hs].
  apply negb_true_iff in Hc. rewrite (IH Hs), Hc.
  destruct s; reflexivity.
Qed.

Lemma lowerChar_whiteSpace (c : ascii) :
  isWhiteSpace (lowerChar c) = isWhiteSpace c.
Proof. destruct c as [[] [] [] [] [] [] [] []]; vm_compute; reflexivity. Qed.

Lemma lowerChar_idempotent (c : ascii) : lowerChar (lowerChar c) = lowerChar c.
Proof. destruct c as [[] [] [] [] [] [] [] []]; vm_compute; reflexivity. Qed.

Lemma toLowerCase_idempotent (s : string) :
  toLowerCase (toLowerCase s) = toLowerCase s.
Proof.
  induction s as [|c s IH]; simpl; [reflexivity|].
  rewrite lowerChar_idempotent, IH. reflexivity.
Qed.

Lemma trimStart_toLowerCase (s : string) :
  trimStart (toLowerCase s) = toLowerCase (trimStart s).
Proof.
  induction s as [|c s IH]; simpl; [reflexivity|].
  rewrite lowerChar_whiteSpace. destruct (isWhiteSpace c); [exact IH|reflexivity].
Qed.

Lemma trimEnd_toLowerCase (s : string) :
  trimEnd (toLowerCase s) = toLowerCase (trimEnd s).
Proof.
  induction s as [|c s IH]; simpl; [reflexivity|].
  rewrite IH, lowerChar_whiteSpace.
  destruct (trimEnd s); simpl; [destruct (isWhiteSpace c)|]; reflexivity.
Qed.

Lemma trim_toLowerCase (s : string) :
  trim (toLowerCase s) = toLowerCase (trim s).
Proof.
  unfold trim. rewrite trimStart_toLowerCase. apply trimEnd_toLowerCase.
Qed.

End TrimFacts.

(** ** Further properties of slugs *)

Module SlugExtras.
Import JS EventModel Vocabulary Samples StringFacts SlugFacts EventHookFacts.
Import TrimFacts.

Lemma isHyphen_char (c : ascii) : isHyphen c = true -> c = "-"%char.
Proof.
  destruct c as [[] [] [] [] [] [] [] []]; vm_compute; intros H;
    first [reflexivity | discriminate H].
Qed.

Lemma urlSafe_class (c : ascii) :
  urlSafe c = true ->
  lowerChar c = c /\ isWhiteSpace c = false /\ slugChar c = true.
Proof.
  destruct c as [[] [] [] [] [] [] [] []]; vm_compute; intros H;
    first [repeat split; reflexivity | discriminate H].
Qed.

Lemma toLowerCase_fixed (s : string) :
  allChars urlSafe s = true -> toLowerCase s = s.
Proof.
  induction s as [|c s IH]; simpl; [reflexivity|].
  intros H. apply andb_true_iff in H as [Hc Hs].
  destruct (urlSafe_class c Hc) as (-> & _). rewrite (IH Hs). reflexivity.
Qed.

Lemma keep_fixed (p : ascii -> bool) (s : string) :
  allChars p s = true -> keep p s = s.
Proof.
  induction s as [|c s IH]; simpl; [reflexivity|].
  intros H. apply andb_true_iff in H as [Hc Hs]. rewrite Hc, (IH Hs).
  reflexivity.
Qed.

Lemma replaceRuns_none (p : ascii -> bool) (r : string) (b : bool) (s : string) :
  allChars (fun c => negb (p c)) s = true -> replaceRuns p r b s = s.
Proof.
  revert b. induction s as [|c s IH]; intros b; simpl; [reflexivity|].
  intros H. apply andb_true_iff in H as [Hc Hs].
  apply negb_true_iff in Hc. rewrite Hc, (IH false Hs). reflexivity.
Qed.

Lemma replace_hyphen_fixed (s : string) :
  hasDoubleHyphen s = false ->
  replaceRuns isHyphen "-" false s = s
  /\ (startsWithHyphen s = false -> replaceRuns isHyphen "-" true s = s).
Proof.
  induction s as [|c s IH]; simpl; [auto|].
  intros H. apply orb_false_iff in H as [Hc Hs].
  destruct (IH Hs) as [IHf IHt].
  destruct (isHyphen c) eqn:Hh.
  - simpl in Hc. rewrite (IHt Hc), (isHyphen_char c Hh).
    split; [reflexivity|discriminate].
  - rewrite IHf. auto.
Qed.

(** X1. [slugify] is idempotent: a normalized base is its own base. *)
Theorem slugify_idempotent :
  forall value : string, slugify (slugify value) = slugify value.
Proof.
  intros value.
  pose proof (slugify_urlSafe value) as Hsafe.
  pose proof (slugify_single_hyphens value) as Hsingle.
  set (s := slugify value) in *. clearbody s.
  assert (Hnw : allChars (fun c => negb (isWhiteSpace c)) s = true).
  { revert Hsafe. apply allChars_impl. intros c Hc.
    destruct (urlSafe_class c Hc) as (_ & -> & _). reflexivity. }
  unfold slugify, trim.
  rewrite (trimStart_no_whiteSpace s Hnw), (trimEnd_no_whiteSpace s Hnw).
  rewrite (toLowerCase_fixed s Hsafe).
  rewrite keep_fixed.
  - rewrite (replaceRuns_none isWhiteSpace "-" false s Hnw).
    apply replace_hyphen_fixed, Hsingle.
  - revert Hsafe. apply allChars_impl. intros c Hc.
    apply (urlSafe_class c Hc).
Qed.

(** X2. Titles that differ only by the case of their letters and by white
    space around them have the same base. *)
Theorem slugify_case_and_padding :
  forall value other a b : string,
    allChars isWhiteSpace a = true ->
    allChars isWhiteSpace b = true ->
    toLowerCase other = toLowerCase value ->
    slugify (a ++ other ++ b) = slugify value.
Proof.
  intros value other a b Ha Hb Hcase. unfold slugify.
  rewrite (trim_padding a other b Ha Hb).
  rewrite <- !trim_toLowerCase, Hcase. reflexivity.
Qed.

Lemma slugify_case_and_padding_witness :
  slugify "  DEV meetup 2024 " = slugify "Dev Meetup 2024".
Proof.
  apply (slugify_case_and_padding "Dev Meetup 2024" "DEV meetup 2024" "  " " ");
    reflexivity.
Defined.

(** X3. The validator of the string fields rejects exactly the strings
    made of white space only (the empty string among them), and every
    title with a non-empty base passes it. *)
Theorem nonEmptyString_whiteSpace :
  forall v : string,
    (nonEmptyString v = true <-> allChars isWhiteSpace v = false)
    /\ (slugify v <> "" -> nonEmptyString v = true).
Proof.
  intros v.
  assert (Hiff : nonEmptyString v = true <-> allChars isWhiteSpace v = false).
  { unfold nonEmptyString. pose proof (trim_empty_iff v) as Ht.
    destruct (trim v) as [|c t]; simpl.
    - split; [discriminate|]. intros H.
      rewrite (proj1 Ht eq_refl) in H. discriminate.
    - split; [|reflexivity]. intros _.
      destruct (allChars isWhiteSpace v); [|reflexivity].
      destruct Ht as [_ Ht]. discriminate (Ht eq_refl). }
  split; [exact Hiff|].
  intros Hbase. apply Hiff.
  destruct (allChars isWhiteSpace v) eqn:Hw; [|reflexivity].
  exfalso. apply Hbase. unfold slugify.
  rewrite (proj2 (trim_empty_iff v) Hw). reflexivity.
Qed.

Lemma nonEmptyString_witness :
  nonEmptyString "Dev Meetup" = true /\ nonEmptyString "   " = false.
Proof.
  split.
  - apply (proj2 (nonEmptyString_whiteSpace "Dev Meetup")).
    vm_compute. discriminate.
  - reflexivity.
Defined.

(** X4. The lookup leaves the document itself out: when the only records
    that use the base are records of the document being saved, the hook
    adopts the base, without a counter. *)
Theorem own_slug_is_no_conflict :
  forall (h : Host) (db : list EventDocument) (doc : EventDocument),
    isModified doc "title" = true ->
    slugify (title doc) <> "" ->
    (forall d, In d db -> slug d = slugify (title doc) -> _id d = _id doc) ->
    slugStage h db doc = Some (assign_slug (slugify (title doc)) doc).
Proof.
  intros h db doc Hmod Hbase Hown.
  destruct (slugStage_modified h db doc Hmod) as (k & Hk & _ & Hmin).
  assert (Hfirst : firstCandidate h (slugify (title doc)) = slugify (title doc)).
  { unfold firstCandidate.
    destruct (String.eqb_spec (slugify (title doc)) ""); [contradiction|reflexivity]. }
  rewrite Hfirst in Hk, Hmin.
  destruct (N.eq_dec k 0) as [->|Hnz]; [exact Hk|].
  exfalso. apply (Hmin 0%N); [lia|]. apply free_iff. exact Hown.
Qed.

Lemma own_slug_witness :
  slugStage sampleHost sampleEvents
    (assign_title "Dev  meetup?" (hd (newEvent idA "" "" "") sampleEvents))
  = Some (assign_slug "dev-meetup"
            (assign_title "Dev  meetup?" (hd (newEvent idA "" "" "") sampleEvents))).
Proof.
  apply (own_slug_is_no_conflict sampleHost sampleEvents
           (assign_title "Dev  meetup?" (hd (newEvent idA "" "" "") sampleEvents))).
  - reflexivity.
  - vm_compute. discriminate.
  - intros d [<-|[]] _. reflexivity.
Defined.

(** *** The collection across saves *)

Lemma ids_unique_filter (keep : EventDocument -> bool)
    (db : list EventDocument) :
  IdsUnique db -> IdsUnique (filter keep db).
Proof.
  unfold IdsUnique. induction db as [|d db IH]; simpl; [auto|].
  intros Hnd. apply NoDup_cons_iff in Hnd as [Hnin Hnd].
  destruct (keep d); simpl; [|auto].
  apply NoDup_cons_iff. split; [|auto].
  rewrite in_map_iff. intros (e & He & Hin).
  apply filter_In in Hin as [Hin _].
  apply Hnin, in_map_iff. eauto.
Qed.

Lemma persist_other_ids (d0 d : EventDocument) (db : list EventDocument) :
  In d (filter (fun d => negb (String.eqb (_id d) (_id d0))) db) ->
  In d db /\ _id d <> _id d0.
Proof.
  intros H. apply filter_In in H as [Hin Hid]. split; [exact Hin|].
  apply negb_true_iff in Hid. apply String.eqb_neq, Hid.
Qed.

(** X5. Saving a document whose title is modified keeps the collection
    well formed: if no two records of different identity shared a slug and
    no two records shared an identity before, the same holds after. *)
Theorem save_keeps_slugs_unique :
  forall (h : Host) (db db' : list EventDocument) (doc d' : EventDocument),
    SlugsUnique db ->
    IdsUnique db ->
    isModified doc "title" = true ->
    save h db doc = Some (Ok (db', d')) ->
    SlugsUnique db' /\ IdsUnique db'.
Proof.
  intros h db db' doc d' Hslugs Hids Hmod Hsave.
  destruct (save_adopts h db db' doc d' Hmod Hsave)
    as (k & d0 & Hk & Hfree & _ & -> & -> & Hs0 & Hid0).
  simpl in Hk, Hfree. rewrite <- Hk in Hfree. clear Hk.
  change (slug (stored d0)) with (slug d0) in *. clear Hs0.
  assert (Hnew : forall d, In d (filter (fun d => negb (String.eqb (_id d) (_id d0))) db) ->
                           slug d <> slug d0).
  { intros d Hd Heq. apply persist_other_ids in Hd as [Hin Hne].
    rewrite Hid0 in Hne. apply Hne.
    apply (proj1 (free_iff db (_id doc) (slug d0)) Hfree d Hin Heq). }
  split.
  - intros d1 d2 [<-|H1] [<-|H2] Heq; try reflexivity.
    + exfalso. apply (Hnew d2 H2). symmetry. exact Heq.
    + exfalso. apply (Hnew d1 H1). exact Heq.
    + apply persist_other_ids in H1 as [H1 _].
      apply persist_other_ids in H2 as [H2 _]. apply Hslugs; assumption.
  - unfold IdsUnique, persist. cbn [map]. constructor.
    + intros Hin. apply in_map_iff in Hin as (d & Hd & Hin).
      apply persist_other_ids in Hin as [_ Hne]. apply Hne. exact Hd.
    + apply ids_unique_filter, Hids.
Qed.

Lemma save_keeps_slugs_unique_witness :
  exists (db' : list EventDocument) (d' : EventDocument),
    save sampleHost sampleEvents
      (newEvent idB "Dev Meetup" "2024-03-09T21:05:00.123Z" "6 PM")
    = Some (Ok (db', d'))
    /\ SlugsUnique db' /\ IdsUnique db'.
Proof.
  do 2 eexists. split; [vm_compute; reflexivity|].
  eapply (save_keeps_slugs_unique sampleHost sampleEvents _
            (newEvent idB "Dev Meetup" "2024-03-09T21:05:00.123Z" "6 PM")).
  - intros d1 d2 [<-|[]] [<-|[]] _. reflexivity.
  - repeat constructor. intros [].
  - reflexivity.
  - reflexivity.
Defined.

(** X6. When the base is empty and another record uses the clock reading,
    the loop goes on with the counter alone: the slug adopted starts with a
    hyphen, and it is [-1] when no other record uses that. *)
Theorem empty_base_counter :
  forall (h : Host) (db db' : list EventDocument) (doc d' : EventDocument),
    isModified doc "title" = true ->
    slugify (title doc) = "" ->
    ~ free db (_id doc) (String_of_N (Date_now h)) ->
    save h db doc = Some (Ok (db', d')) ->
    startsWithHyphen (slug d') = true
    /\ (free db (_id doc) "-1" -> slug d' = "-1").
Proof.
  intros h db db' doc d' Hmod Hbase Hused Hsave.
  destruct (save_adopts h db db' doc d' Hmod Hsave)
    as (k & d0 & Hk & Hfree & Hmin & _).
  simpl in Hk, Hfree, Hmin. rewrite Hbase in Hk, Hfree, Hmin.
  change (firstCandidate h "") with (String_of_N (Date_now h)) in *.
  assert (Hnz : k <> 0%N).
  { intros ->. apply Hused. exact Hfree. }
  assert (Hcand : candidateAt (String_of_N (Date_now h)) "" k
                  = String "-" (String_of_N k)).
  { unfold candidateAt. apply N.eqb_neq in Hnz. rewrite Hnz. reflexivity. }
  rewrite Hk, Hcand. split; [reflexivity|].
  intros Hone. destruct (N.lt_trichotomy k 1) as [Hlt|[->|Hgt]];
    [lia|reflexivity|].
  exfalso. apply (Hmin 1%N Hgt). exact Hone.
Qed.

Lemma empty_base_counter_witness :
  adoptedSlug sampleHost
    [stored (assign_slug "1700000000000"
               (newEvent idA "1700000000000" "2024-03-09" "09:30"))]
    (newEvent idB "?!" "2024-03-09T21:05:00.123Z" "6 PM")
  = Some "-1".
Proof.
  pose (db := [stored (assign_slug "1700000000000"
                         (newEvent idA "1700000000000" "2024-03-09" "09:30"))]).
  pose (doc := newEvent idB "?!" "2024-03-09T21:05:00.123Z" "6 PM").
  unfold adoptedSlug.
  destruct (save sampleHost db doc) as [[[db' d']|m]|] eqn:Hs;
    try (vm_compute in Hs; discriminate Hs).
  fold db doc. rewrite Hs. f_equal.
  apply (proj2 (empty_base_counter sampleHost db db' doc d' eq_refl eq_refl
                  ltac:(vm_compute; discriminate) Hs)).
  reflexivity.
Defined.

Lemma candidateAt_inj (h : Host) (base : string) (j k : N) :
  candidateAt (firstCandidate h base) base j
  = candidateAt (firstCandidate h base) base k ->
  j = k.
Proof.
  assert (Hfirst : forall n : N,
            firstCandidate h base <> base ++ "-" ++ String_of_N n).
  { intros n. unfold firstCandidate.
    destruct (String.eqb_spec base "") as [->|Hne].
    - simpl. intros H.
      pose proof (String_of_N_digits (Date_now h)) as Hd.
      rewrite H in Hd. discriminate Hd.
    - apply append_nonempty_neq. discriminate. }
  unfold candidateAt.
  destruct (N.eqb_spec j 0) as [->|Hj], (N.eqb_spec k 0) as [->|Hk].
  - reflexivity.
  - intros H. contradiction (Hfirst k H).
  - intros H. symmetry in H. contradiction (Hfirst j H).
  - apply suffix_inj.
Qed.

(** X7. The counter the loop stops at is at most the number of records:
    the hook asks the collection at most once more than it has records. *)
Theorem slug_counter_bounded :
  forall (h : Host) (db : list EventDocument) (doc : EventDocument),
    isModified doc "title" = true ->
    exists k : N,
      slugStage h db doc
      = Some (assign_slug
                (candidateAt (firstCandidate h (slugify (title doc)))
                   (slugify (title doc)) k) doc)
      /\ N.to_nat k <= List.length db.
Proof.
  intros h db doc Hmod.
  destruct (slugStage_modified h db doc Hmod) as (k & Hk & _ & Hmin).
  exists k. split; [exact Hk|].
  set (base := slugify (title doc)) in *.
  set (f := fun j : nat => candidateAt (firstCandidate h base) base (N.of_nat j)).
  assert (Hnd : NoDup (map f (seq 0 (N.to_nat k)))).
  { apply Injective_map_NoDup; [|apply seq_NoDup].
    intros x y Hxy. apply candidateAt_inj in Hxy. lia. }
  assert (Hincl : incl (map f (seq 0 (N.to_nat k))) (map slug db)).
  { intros c Hc. apply in_map_iff in Hc as (j & <- & Hj). apply in_seq in Hj.
    destruct (conflict_in_db db (_id doc) (f j)) as (d & Hin & Hs & _).
    - apply Hmin. lia.
    - apply in_map_iff. eauto. }
  pose proof (NoDup_incl_length Hnd Hincl) as Hlen.
  rewrite !length_map, length_seq in Hlen. exact Hlen.
Qed.

Lemma slug_counter_bounded_witness :
  exists k : N,
    slugStage sampleHost sampleEvents
      (newEvent idB "Dev Meetup" "2024-03-09" "6 PM")
    = Some (assign_slug (candidateAt "dev-meetup" "dev-meetup" k)
              (newEvent idB "Dev Meetup" "2024-03-09" "6 PM"))
    /\ N.to_nat k <= 1.
Proof.
  apply (slug_counter_bounded sampleHost sampleEvents
           (newEvent idB "Dev Meetup" "2024-03-09" "6 PM")).
  reflexivity.
Defined.

End SlugExtras.

(** ** Further properties of the date and time blocks *)

Module DateTimeExtras.
Import JS EventModel Vocabulary Samples StringFacts EventHookFacts.
Import FrameClaims TrimFacts TimeFacts.

(** *** Dates *)

Lemma append_assoc_r (a b c : string) : (a ++ b) ++ c = a ++ (b ++ c).
Proof.
  induction a as [|x a IH]; simpl; [reflexivity|]. rewrite IH. reflexivity.
Qed.

Lemma slice0_app_prefix (n : nat) (a b : string) :
  n <= String.length a -> slice0 n (a ++ b) = slice0 n a.
Proof.
  revert a. induction n as [|n IH]; intros a; [reflexivity|].
  destruct a as [|x a]; simpl; [lia|].
  intros H. rewrite IH; [reflexivity|lia].
Qed.

Lemma length_slice0 (n : nat) (a : string) :
  n <= String.length a -> String.length (slice0 n a) = n.
Proof.
  revert a. induction n as [|n IH]; intros a; [reflexivity|].
  destruct a as [|x a]; simpl; [lia|].
  intros H. rewrite IH; [reflexivity|lia].
Qed.

Lemma length_zeros (n : nat) (s : string) :
  String.length (zeros n s) = n + String.length s.
Proof. induction n as [|n IH]; simpl; [reflexivity|]. rewrite IH. reflexivity. Qed.

Lemma length_padStart0 (width : nat) (s : string) :
  width <= String.length (padStart0 width s).
Proof. unfold padStart0. rewrite length_zeros. lia. Qed.

Lemma length_isoYear (y : Z) : 4 <= String.length (isoYear y).
Proof.
  unfold isoYear, digitsOfZ.
  destruct ((0 <=? y)%Z && (y <=? 9999)%Z).
  - apply length_padStart0.
  - destruct (y <? 0)%Z; simpl;
      match goal with
      | |- _ <= S (String.length (padStart0 6 ?s)) =>
          pose proof (length_padStart0 6 s); lia
      end.
Qed.

Lemma length_isoDatePart (day : Z) : 10 <= String.length (isoDatePart day).
Proof.
  unfold isoDatePart. destruct (civilFromDays day) as [[y m] d].
  rewrite !length_append. simpl.
  pose proof (length_isoYear y).
  pose proof (length_padStart0 2 (String_of_N (Z.to_N m))).
  pose proof (length_padStart0 2 (String_of_N (Z.to_N d))).
  unfold digitsOfZ. lia.
Qed.

Lemma toISOString_parts (t : Z) :
  exists clock : string, toISOString t = isoDatePart (Day t) ++ clock.
Proof.
  unfold toISOString, isoDatePart.
  destruct (civilFromDays (Day t)) as [[y m] d].
  eexists. rewrite !append_assoc_r. reflexivity.
Qed.

Lemma stored_date_of_day (t : Z) :
  slice0 10 (toISOString t) = slice0 10 (isoDatePart (Day t)).
Proof.
  destruct (toISOString_parts t) as [clock ->].
  apply slice0_app_prefix, length_isoDatePart.
Qed.

(** X8. The time of day is dropped: two dates that are parsed to instants
    of the same UTC day are stored as the same string, of ten characters. *)
Theorem same_day_same_date :
  forall (h : Host) (s s' : string) (t t' : Z),
    Date_parse h s = Some t ->
    Date_parse h s' = Some t' ->
    Day t = Day t' ->
    normalizeDate h s = normalizeDate h s'
    /\ exists v, normalizeDate h s = Ok v /\ String.length v = 10.
Proof.
  intros h s s' t t' Hs Hs' Hday. unfold normalizeDate.
  rewrite Hs, Hs', !stored_date_of_day, Hday. split; [reflexivity|].
  eexists. split; [reflexivity|].
  apply length_slice0, length_isoDatePart.
Qed.

Lemma same_day_same_date_witness :
  let h := hostWith 0 [("2024-03-09T21:05:00.123Z", 1710018300123%Z);
                       ("2024-03-09", 1709942400000%Z)] in
  normalizeDate h "2024-03-09T21:05:00.123Z" = normalizeDate h "2024-03-09".
Proof.
  intros h.
  apply (proj1 (same_day_same_date h "2024-03-09T21:05:00.123Z" "2024-03-09"
                  1710018300123 1709942400000 eq_refl eq_refl eq_refl)).
Defined.

(** *** The order of the blocks *)

Lemma slugStage_some (h : Host) (db : list EventDocument) (doc : EventDocument) :
  exists d1, slugStage h db doc = Some d1
             /\ date d1 = date doc /\ time d1 = time doc
             /\ isModified d1 "date" = isModified doc "date"
             /\ isModified d1 "time" = isModified doc "time".
Proof.
  destruct (slugStage h db doc) as [d1|] eqn:Hs.
  - exists d1. apply slugStage_frame in Hs as (_ & Hd & Ht & Hmd & Hmt & _).
    auto.
  - exfalso. destruct (pre_save_returns h db doc) as [r Hr].
    unfold pre_save in Hr. rewrite Hs in Hr. discriminate.
Qed.

(** X9. The date is checked before the time: a modified, unparseable date
    makes the hook throw the date message whatever the time is, and the
    time message is thrown only when the date block passes. *)
Theorem date_error_comes_first :
  forall (h : Host) (db : list EventDocument) (doc : EventDocument),
    (isModified doc "date" = true ->
     Date_parse h (date doc) = None ->
     pre_save h db doc
     = Some (Throw "Invalid date format; expected a valid date"))
    /\ (isModified doc "date" = false
        \/ (exists t, Date_parse h (date doc) = Some t) ->
        isModified doc "time" = true ->
        normalizeTime (time doc) = Throw invalidTime ->
        pre_save h db doc = Some (Throw invalidTime)).
Proof.
  intros h db doc.
  destruct (slugStage_some h db doc) as (d1 & Hs & Hd & Ht & Hmd & Hmt).
  unfold pre_save. rewrite Hs. split.
  - intros Hmod Hnone. unfold dateStage, normalizeDate.
    rewrite Hmd, Hmod, Hd, Hnone. reflexivity.
  - intros Hdate Hmod Htime. f_equal.
    assert (Hpass : exists d2, dateStage h d1 = Ok d2 /\ time d2 = time doc
                               /\ isModified d2 "time" = true).
    { unfold dateStage, normalizeDate. rewrite Hmd, Hd.
      destruct Hdate as [Hdm|[t Hparse]].
      - rewrite Hdm. exists d1. rewrite Hmt. auto.
      - destruct (isModified doc "date").
        + rewrite Hparse. simpl. eexists. split; [reflexivity|].
          split; [exact Ht|].
          unfold assign_date, isModified at 1. cbn [modifiedPaths].
          rewrite isModified_mark by reflexivity. congruence.
        + exists d1. rewrite Hmt. auto. }
    destruct Hpass as (d2 & -> & Ht2 & Hm2). simpl.
    unfold timeStage. rewrite Hm2, Ht2, Htime. reflexivity.
Qed.

Lemma date_error_comes_first_witness :
  pre_save sampleHost [] (newEvent idA "Dev Meetup" "not-a-date" "25:00")
  = Some (Throw "Invalid date format; expected a valid date")
  /\ pre_save sampleHost []
       (newEvent idA "Dev Meetup" "2024-03-09T21:05:00.123Z" "25:00")
     = Some (Throw invalidTime).
Proof.
  split.
  - apply (proj1 (date_error_comes_first sampleHost []
                    (newEvent idA "Dev Meetup" "not-a-date" "25:00")));
      reflexivity.
  - apply (proj2 (date_error_comes_first sampleHost []
                    (newEvent idA "Dev Meetup" "2024-03-09T21:05:00.123Z" "25:00"))).
    + right. eexists. reflexivity.
    + reflexivity.
    + reflexivity.
Defined.

(** *** Times *)

Lemma applyMeridiem_cases (letters : string) (h : N) :
  isMeridiem letters = true ->
  (toUpperCase letters = "AM"
   /\ applyMeridiem (Some letters) h = if (h =? 12)%N then 0%N else h)
  \/ (toUpperCase letters = "PM"
      /\ applyMeridiem (Some letters) h = if (h <? 12)%N then (h + 12)%N else h).
Proof.
  unfold isMeridiem, applyMeridiem. intros H.
  destruct (String.eqb_spec (toUpperCase letters) "PM") as [Hpm|Hpm].
  - right. split; [exact Hpm|]. rewrite Hpm. reflexivity.
  - rewrite orb_false_r in H. left. split; [apply String.eqb_eq, H|].
    rewrite H. reflexivity.
Qed.

(** X10. On the hours of a 12-hour clock the meridiem adjustment is a
    bijection onto the hours 0..23: the result is at most 23, different
    hours or meridiems give different results, and every hour of the day
    is the result of one. *)
Theorem meridiem_conversion_bijective :
  (forall (l1 l2 : string) (h1 h2 : N),
     isMeridiem l1 = true -> isMeridiem l2 = true ->
     (1 <= h1 <= 12)%N -> (1 <= h2 <= 12)%N ->
     applyMeridiem (Some l1) h1 = applyMeridiem (Some l2) h2 ->
     h1 = h2 /\ toUpperCase l1 = toUpperCase l2)
  /\ (forall (l : string) (h : N),
        isMeridiem l = true -> (1 <= h <= 12)%N ->
        (applyMeridiem (Some l) h <= 23)%N)
  /\ (forall H : N, (H <= 23)%N ->
        exists (l : string) (h : N),
          isMeridiem l = true /\ (1 <= h <= 12)%N
          /\ applyMeridiem (Some l) h = H).
Proof.
  split; [|split].
  - intros l1 l2 h1 h2 Hl1 Hl2 Hh1 Hh2.
    destruct (applyMeridiem_cases l1 h1 Hl1) as [[-> ->]|[-> ->]];
      destruct (applyMeridiem_cases l2 h2 Hl2) as [[-> ->]|[-> ->]];
      destruct (N.eqb_spec h1 12); destruct (N.eqb_spec h2 12);
      destruct (N.ltb_spec h1 12); destruct (N.ltb_spec h2 12);
      intros Heq; try lia; split; try reflexivity; lia.
  - intros l h Hl Hh.
    destruct (applyMeridiem_cases l h Hl) as [[_ ->]|[_ ->]];
      [destruct (N.eqb_spec h 12)|destruct (N.ltb_spec h 12)]; lia.
  - intros H HH.
    destruct (N.eq_dec H 0) as [->|H0].
    { exists "AM", 12%N. repeat split; try reflexivity; lia. }
    destruct (N.lt_ge_cases H 12) as [Hlt|Hge].
    { exists "AM", H. repeat split; try lia.
      unfold applyMeridiem. simpl.
      destruct (N.eqb_spec H 12); [lia|reflexivity]. }
    destruct (N.eq_dec H 12) as [->|H12].
    { exists "PM", 12%N. repeat split; try reflexivity; lia. }
    exists "PM", (H - 12)%N. repeat split; try lia.
    unfold applyMeridiem. simpl.
    destruct (N.ltb_spec (H - 12) 12); lia.
Qed.

Lemma meridiem_conversion_witness :
  (applyMeridiem (Some "pm") 9 <= 23)%N
  /\ (applyMeridiem (Some "am") 12 = applyMeridiem (Some "AM") 12 ->
      toUpperCase "am" = toUpperCase "AM").
Proof.
  split.
  - apply (proj1 (proj2 meridiem_conversion_bijective) "pm" 9%N);
      [reflexivity|lia].
  - intros H.
    apply (proj1 meridiem_conversion_bijective "am" "AM" 12%N 12%N);
      [reflexivity|reflexivity|lia|lia|exact H].
Defined.

(** X11. White space before and after a time changes nothing: the time is
    accepted or rejected, and stored, as without it. *)
Theorem normalizeTime_padding :
  forall a t b : string,
    allChars isWhiteSpace a = true ->
    allChars isWhiteSpace b = true ->
    normalizeTime (a ++ t ++ b) = normalizeTime t.
Proof.
  intros a t b Ha Hb. unfold normalizeTime.
  rewrite (trim_padding a t b Ha Hb). reflexivity.
Qed.

Lemma normalizeTime_padding_witness :
  normalizeTime "  9:30 pm  " = normalizeTime "9:30 pm".
Proof.
  apply (normalizeTime_padding "  " "9:30 pm" "  "); reflexivity.
Defined.

(** Every clock value, written as HH:MM, is read back as its fields. *)
Lemma clock_fields_table :
  forallb (fun h =>
    forallb (fun m =>
      let s := clockString (N.of_nat h) (N.of_nat m) in
      isClock s
      && match clockFields s with
         | Some (h', m') => (h' =? N.of_nat h)%N && (m' =? N.of_nat m)%N
         | None => false
         end) (seq 0 60)) (seq 0 24) = true.
Proof. vm_compute. reflexivity. Qed.

Lemma clockString_fields (h m : N) :
  (h <= 23)%N -> (m <= 59)%N ->
  isClock (clockString h m) = true
  /\ clockFields (clockString h m) = Some (h, m).
Proof.
  intros Hh Hm. pose proof clock_fields_table as T.
  rewrite forallb_forall in T.
  specialize (T (N.to_nat h)). rewrite forallb_forall in T.
  assert (Hin : In (N.to_nat h) (seq 0 24)) by (apply in_seq; lia).
  specialize (T Hin (N.to_nat m)).
  assert (Him : In (N.to_nat m) (seq 0 60)) by (apply in_seq; lia).
  specialize (T Him). rewrite !N2Nat.id in T. cbv zeta in T.
  apply andb_true_iff in T as [Hc T]. split; [exact Hc|].
  destruct (clockFields (clockString h m)) as [[h' m']|]; [|discriminate].
  apply andb_true_iff in T as [T1 T2].
  apply N.eqb_eq in T1. apply N.eqb_eq in T2. subst. reflexivity.
Qed.

(** X12. What the time block stores is five characters, two digits, a
    colon and two digits, from which the hour and the minute are read back
    exactly; two inputs are stored alike only when they denote the same
    hour and minute. *)
Theorem stored_time_round_trip :
  forall t s : string,
    normalizeTime t = Ok s ->
    isClock s = true
    /\ (exists h m : N, clockFields (trim t) = Some (h, m)
                        /\ clockFields s = Some (h, m))
    /\ (forall t' : string,
          normalizeTime t' = Ok s -> clockFields (trim t') = clockFields (trim t)).
Proof.
  assert (Hinv : forall t s, normalizeTime t = Ok s ->
            exists h m : N, clockFields (trim t) = Some (h, m)
                            /\ (h <= 23)%N /\ (m <= 59)%N
                            /\ s = clockString h m).
  { intros t s. unfold normalizeTime.
    destruct (clockFields (trim t)) as [[h m]|]; [|discriminate].
    destruct (23 <? h)%N eqn:Hh; [rewrite orb_true_r; discriminate|].
    destruct (59 <? m)%N eqn:Hm; [rewrite !orb_true_r; discriminate|].
    destruct ((h <? 0)%N || false || (m <? 0)%N || false); [discriminate|].
    intros [= <-]. exists h, m.
    apply N.ltb_ge in Hh. apply N.ltb_ge in Hm. auto. }
  intros t s Hok.
  destruct (Hinv t s Hok) as (h & m & Hf & Hh & Hm & ->).
  destruct (clockString_fields h m Hh Hm) as [Hc Hr].
  split; [exact Hc|]. split; [eauto|].
  intros t' Hok'.
  destruct (Hinv t' _ Hok') as (h' & m' & Hf' & Hh' & Hm' & Heq).
  destruct (clockString_fields h' m' Hh' Hm') as [_ Hr'].
  rewrite <- Heq, Hr in Hr'. congruence.
Qed.

Lemma stored_time_round_trip_witness :
  isClock "21:30" = true
  /\ clockFields (trim "21.30") = clockFields (trim " 9:30 PM").
Proof.
  destruct (stored_time_round_trip " 9:30 PM" "21:30" eq_refl)
    as (Hc & _ & Hsame).
  split; [exact Hc|]. apply Hsame. reflexivity.
Defined.

End DateTimeExtras.

(** ** Further properties of the Booking model *)

Module BookingExtras.
Import JS EventModel BookingModel Vocabulary Samples StringFacts.
Import EventHookFacts FrameClaims BookingClaims.

(** *** The email pattern *)

Section Email.
Variable R : Type.

Lemma emailChars_inv (s : string) (k : string -> option R) (r : R) :
  emailChars R s k = Some r ->
  exists a s1, s = a ++ s1 /\ a <> "" /\ allChars emailChar a = true
               /\ k s1 = Some r.
Proof.
  induction s as [|c s IH]; simpl; [discriminate|].
  destruct (emailChar c) eqn:Hc; [|discriminate].
  destruct (emailChars R s k) as [r'|] eqn:He; simpl.
  - intros [= <-]. destruct (IH eq_refl) as (a & s1 & -> & _ & Ha & Hk).
    exists (String c a), s1. simpl. rewrite Hc, Ha.
    repeat split; [discriminate|exact Hk].
  - intros Hk. exists (String c ""), s. simpl. rewrite Hc.
    repeat split; [discriminate|exact Hk].
Qed.

Lemma emailChars_complete (a s1 : string) (k : string -> option R) (r : R) :
  a <> "" -> allChars emailChar a = true -> k s1 = Some r ->
  exists r', emailChars R (a ++ s1) k = Some r'.
Proof.
  intros Hne Ha Hk. induction a as [|c a IH]; [contradiction|].
  simpl in Ha |- *. apply andb_true_iff in Ha as [Hc Ha]. rewrite Hc.
  destruct a as [|c' a'].
  - simpl. destruct (emailChars R s1 k) as [r'|]; simpl; eauto.
  - destruct IH as [r' ->]; [discriminate|exact Ha|]. simpl. eauto.
Qed.

End Email.

Lemma emailRegex_parts (v : string) :
  emailRegex v = true ->
  exists l d e, v = l ++ "@" ++ d ++ "." ++ e
                /\ l <> "" /\ d <> "" /\ e <> ""
                /\ allChars emailChar l = true /\ allChars emailChar d = true
                /\ allChars emailChar e = true.
Proof.
  unfold emailRegex.
  destruct (emailChars unit v _) as [[]|] eqn:H; [intros _|discriminate].
  apply emailChars_inv in H as (l & s1 & -> & Hl & Hal & H).
  destruct s1 as [|c s2]; [discriminate H|]. simpl in H.
  destruct (Ascii.eqb_spec c "@") as [->|]; [|discriminate H].
  apply emailChars_inv in H as (d & s3 & -> & Hd & Had & H).
  destruct s3 as [|c s4]; [discriminate H|]. simpl in H.
  destruct (Ascii.eqb_spec c ".") as [->|]; [|discriminate H].
  apply emailChars_inv in H as (e & s5 & -> & He & Hae & H).
  destruct s5; [|discriminate H].
  exists l, d, e. rewrite TimeFacts.append_empty_r. repeat split; assumption.
Qed.

Lemma emailRegex_of_parts (l d e : string) :
  l <> "" -> d <> "" -> e <> "" ->
  allChars emailChar l = true -> allChars emailChar d = true ->
  allChars emailChar e = true ->
  emailRegex (l ++ "@" ++ d ++ "." ++ e) = true.
Proof.
  intros Hl Hd He Hal Had Hae. unfold emailRegex.
  rewrite <- (TimeFacts.append_empty_r e) at 1.
  destruct (emailChars_complete unit e ""
              (fun s5 => match s5 with
                         | EmptyString => Some tt
                         | _ => None
                         end) tt He Hae eq_refl) as [r5 H5].
  destruct (emailChars_complete unit d ("." ++ e ++ "")
              (fun s3 => literal unit "." s3 (fun s4 =>
                 emailChars unit s4 (fun s5 =>
                   match s5 with
                   | EmptyString => Some tt
                   | _ => None
                   end))) r5 Hd Had H5) as [r3 H3].
  destruct (emailChars_complete unit l ("@" ++ d ++ "." ++ e ++ "")
              (fun s1 => literal unit "@" s1 (fun s2 =>
                 emailChars unit s2 (fun s3 =>
                   literal unit "." s3 (fun s4 =>
                     emailChars unit s4 (fun s5 =>
                       match s5 with
                       | EmptyString => Some tt
                       | _ => None
                       end))))) r3 Hl Hal H3) as [r1 H1].
  rewrite H1. reflexivity.
Qed.

(** X13. The email pattern accepts exactly the texts made of a local part,
    an at sign, a domain, a dot and an ending, where the three parts are
    non-empty and hold neither white space nor an at sign. *)
Theorem emailRegex_shape :
  forall v : string,
    emailRegex v = true
    <-> exists l d e, v = l ++ "@" ++ d ++ "." ++ e
                      /\ l <> "" /\ d <> "" /\ e <> ""
                      /\ allChars emailChar l = true
                      /\ allChars emailChar d = true
                      /\ allChars emailChar e = true.
Proof.
  intros v. split; [apply emailRegex_parts|].
  intros (l & d & e & -> & Hl & Hd & He & Hal & Had & Hae).
  apply emailRegex_of_parts; assumption.
Qed.

Lemma emailRegex_shape_witness :
  emailRegex "ada.l@mail.example.org" = true.
Proof.
  apply (proj2 (emailRegex_shape "ada.l@mail.example.org")).
  exists "ada.l", "mail.example", "org".
  repeat split; try reflexivity; discriminate.
Defined.

Lemma countChar_app (ch : ascii) (a b : string) :
  countChar ch (a ++ b) = countChar ch a + countChar ch b.
Proof.
  induction a as [|c a IH]; simpl; [reflexivity|]. rewrite IH. lia.
Qed.

Lemma emailChar_class (c : ascii) :
  emailChar c = true -> isWhiteSpace c = false /\ Ascii.eqb c "@" = false.
Proof.
  destruct c as [[] [] [] [] [] [] [] []]; vm_compute; intros H;
    first [split; reflexivity | discriminate H].
Qed.

Lemma emailChars_count (s : string) :
  allChars emailChar s = true ->
  countChar "@" s = 0
  /\ allChars (fun c => negb (isWhiteSpace c)) s = true.
Proof.
  induction s as [|c s IH]; simpl; [auto|].
  intros H. apply andb_true_iff in H as [Hc Hs].
  destruct (emailChar_class c Hc) as [-> ->]. destruct (IH Hs) as [-> ->].
  auto.
Qed.

(** X14. An accepted email holds no white space, exactly one at sign, and
    at least five characters. *)
Theorem emailRegex_never :
  forall v : string,
    emailRegex v = true ->
    allChars (fun c => negb (isWhiteSpace c)) v = true
    /\ countChar "@" v = 1
    /\ 5 <= String.length v.
Proof.
  intros v H.
  apply emailRegex_parts in H as (l & d & e & -> & Hl & Hd & He & Hal & Had & Hae).
  destruct (emailChars_count l Hal) as [Cl Wl].
  destruct (emailChars_count d Had) as [Cd Wd].
  destruct (emailChars_count e Hae) as [Ce We].
  repeat split.
  - rewrite !allChars_app, Wl, Wd, We. reflexivity.
  - rewrite !countChar_app, Cl, Cd, Ce. reflexivity.
  - rewrite !length_append. simpl.
    destruct l; [contradiction|]. destruct d; [contradiction|].
    destruct e; [contradiction|]. simpl. lia.
Qed.

Lemma emailRegex_never_witness :
  countChar "@" "a@b.co" = 1 /\ 5 <= String.length "a@b.co".
Proof.
  destruct (emailRegex_never "a@b.co" eq_refl) as (_ & Hc & Hl). auto.
Defined.

(** *** Bookings after a save of an Event *)

Lemma pre_save_keeps_id (h : Host) (db : list EventDocument)
    (doc d0 : EventDocument) :
  EventModel.pre_save h db doc = Some (Ok d0) -> _id d0 = _id doc.
Proof.
  intros Hpre. apply pre_save_stages in Hpre as (d1 & d2 & Hs & Hd & Ht).
  apply slugStage_frame in Hs as ((H1 & _) & _).
  apply dateStage_frame in Hd as ((H2 & _) & _).
  apply timeStage_frame in Ht as ((H3 & _) & _). congruence.
Qed.

(** X15. Once an Event is saved, a Booking that refers to it by a valid
    identifier passes the hook, and every Booking that passed the hook
    before the save still passes it after. *)
Theorem booking_after_event_save :
  forall (ObjectId_isValid : string -> bool) (h : Host)
         (db db' : list EventDocument) (doc d' : EventDocument)
         (b : BookingDocument),
    save h db doc = Some (Ok (db', d')) ->
    (ObjectId_isValid (eventId b) = true -> eventId b = _id doc ->
     BookingModel.pre_save ObjectId_isValid db' b = Ok tt)
    /\ (BookingModel.pre_save ObjectId_isValid db b = Ok tt ->
        BookingModel.pre_save ObjectId_isValid db' b = Ok tt).
Proof.
  intros isValid h db db' doc d' b Hsave.
  apply save_inv in Hsave as (d0 & Hpre & -> & ->).
  pose proof (pre_save_keeps_id h db doc d0 Hpre) as Hid.
  assert (Hown : Event_exists (persist d0 db) (_id doc) = true).
  { apply Event_exists_true. exists (stored d0).
    split; [left; reflexivity|exact Hid]. }
  split.
  - intros Hv Hb. unfold BookingModel.pre_save. rewrite Hv, Hb, Hown.
    reflexivity.
  - unfold BookingModel.pre_save.
    destruct (isValid (eventId b)); cbn [negb]; [|discriminate].
    destruct (Event_exists db (eventId b)) eqn:Hex; cbn [negb]; [|discriminate].
    intros _.
    assert (Hstill : Event_exists (persist d0 db) (eventId b) = true).
    { destruct (String.eqb_spec (eventId b) (_id doc)) as [->|Hne];
        [exact Hown|].
      apply Event_exists_true in Hex as (e & Hin & He).
      apply Event_exists_true. exists e. split; [|exact He].
      right. apply filter_In. split; [exact Hin|].
      apply negb_true_iff, String.eqb_neq. congruence. }
    rewrite Hstill. reflexivity.
Qed.

Lemma booking_after_event_save_witness :
  exists (db' : list EventDocument) (d' : EventDocument),
    save sampleHost sampleEvents
      (newEvent idB "Rust Night" "2024-03-09T21:05:00.123Z" "6 PM")
    = Some (Ok (db', d'))
    /\ BookingModel.pre_save hex24 db'
         {| eventId := idB; email := "a@b.co";
            BookingModel.createdAt := None; BookingModel.updatedAt := None |}
       = Ok tt.
Proof.
  do 2 eexists. split; [vm_compute; reflexivity|].
  eapply (proj1 (booking_after_event_save hex24 sampleHost sampleEvents _
                   (newEvent idB "Rust Night" "2024-03-09T21:05:00.123Z" "6 PM")
                   _ _ eq_refl)); reflexivity.
Defined.

End BookingExtras.

(** ** Further properties of the connection cache *)

Module CacheExtras.
Import Mongodb CacheClaims.

Lemma run_app (t1 t2 : list Event) (w : World) :
  run (t1 ++ t2) w = run t2 (run t1 w).
Proof. unfold run. apply fold_left_app. Qed.

Lemma step_attempts (e : Event) (w : World) :
  attempts w <= attempts (step e w).
Proof.
  destruct e as [|p o]; simpl.
  - unfold connectToDatabase. destruct (conn (cache w)); [simpl; lia|].
    destruct (promise (cache w)); simpl; lia.
  - unfold settle. destruct (nth_error (promises w) p) as [[| |]|];
      try lia. destruct o; simpl; lia.
Qed.

Lemma run_attempts (trace : list Event) (w : World) :
  attempts w <= attempts (run trace w).
Proof.
  revert w. induction trace as [|e trace IH]; intros w; simpl; [lia|].
  pose proof (step_attempts e w). pose proof (IH (step e w)). lia.
Qed.

(** X16. In every run the number of connection attempts is one as soon as
    some caller has entered [connectToDatabase], and zero before: when
    attempts end, and how, never adds an attempt. *)
Theorem one_attempt_per_process :
  forall trace : list Event,
    attempts (run trace initial) = if existsb isCall trace then 1 else 0.
Proof.
  induction trace as [|e trace IH]; [reflexivity|].
  destruct e as [|p o].
  - cbn [existsb isCall orb].
    pose proof (run_attempts trace (step Call initial)) as Hge.
    pose proof (proj2 (invariant_bounds _
                  (run_invariant (Call :: trace) initial initial_invariant)))
      as Hle.
    simpl in Hge, Hle |- *. lia.
  - cbn [existsb isCall orb].
    replace (run (Settle p o :: trace) initial) with (run trace initial);
      [exact IH|].
    simpl. destruct p; reflexivity.
Qed.

(** *** The instance, once cached *)

Lemma initial_consistent : Consistent initial.
Proof. unfold Consistent. simpl. auto. Qed.

Lemma step_consistent (e : Event) (w : World) :
  Invariant w -> Consistent w -> Consistent (step e w).
Proof.
  unfold Invariant, Consistent. intros Hinv Hcon.
  destruct e as [|p o]; simpl.
  - unfold connectToDatabase.
    destruct (conn (cache w)) as [m|] eqn:Hc; simpl; [rewrite Hc; exact Hcon|].
    destruct (promise (cache w)) as [q|]; simpl; [rewrite Hc; exact Hcon|].
    destruct Hinv as [-> _]. intros m [H|[]]. discriminate H.
  - unfold settle.
    destruct (nth_error (promises w) p) as [[| |]|] eqn:Hn; try exact Hcon.
    destruct (promise (cache w)) as [q|].
    + destruct Hinv as (_ & Hlen & _).
      destruct (promises w) as [|s [|s' l]] eqn:Hp; try discriminate Hlen.
      destruct p as [|p]; [|destruct p; discriminate Hn].
      injection Hn as ->.
      destruct o; simpl; [reflexivity|].
      destruct (conn (cache w)); [discriminate Hcon|].
      intros m [H|[]]. discriminate H.
    + destruct Hinv as [Hnil _]. rewrite Hnil in Hn.
      destruct p; discriminate Hn.
Qed.

Lemma run_reachable (trace : list Event) (w : World) :
  Invariant w -> Consistent w ->
  Invariant (run trace w) /\ Consistent (run trace w).
Proof.
  revert w. induction trace as [|e trace IH]; intros w Hi Hc; simpl; [auto|].
  apply IH; [apply step_invariant, Hi|apply step_consistent; assumption].
Qed.

Lemma connected_step (e : Event) (w : World) (m : MongooseType) :
  Consistent w -> conn (cache w) = Some m -> step e w = w.
Proof.
  unfold Consistent. intros Hcon Hc. rewrite Hc in Hcon.
  destruct e as [|p o]; simpl.
  - unfold connectToDatabase. rewrite Hc. reflexivity.
  - unfold settle. rewrite Hcon. destruct p as [|[|p]]; reflexivity.
Qed.

Lemma connected_run (trace : list Event) (w : World) (m : MongooseType) :
  Consistent w -> conn (cache w) = Some m -> run trace w = w.
Proof.
  intros Hcon Hc. induction trace as [|e trace IH]; [reflexivity|].
  simpl. rewrite (connected_step e w m Hcon Hc). exact IH.
Qed.

(** X17. In every run [cache.conn] holds an instance exactly when the one
    promise is fulfilled with it; and once it does, nothing changes any
    more: whatever happens next, the world stays as it is and every call
    returns that instance. *)
Theorem cached_instance_is_final :
  forall (trace : list Event) (m : MongooseType),
    let w := run trace initial in
    (conn (cache w) = Some m <-> promises w = [Fulfilled m])
    /\ (conn (cache w) = Some m ->
        forall later : list Event,
          run later w = w
          /\ connectToDatabase (run later w) = (w, Returns m)).
Proof.
  intros trace m w.
  destruct (run_reachable trace initial initial_invariant initial_consistent)
    as [Hinv Hcon]. fold w in Hinv, Hcon.
  split.
  - unfold Consistent in Hcon. split.
    + intros Hc. rewrite Hc in Hcon. exact Hcon.
    + intros Hp. destruct (conn (cache w)) as [m'|].
      * rewrite Hcon in Hp. congruence.
      * exfalso. apply (Hcon m). rewrite Hp. left. reflexivity.
  - intros Hc later. rewrite (connected_run later w m Hcon Hc).
    split; [reflexivity|].
    unfold connectToDatabase. rewrite Hc. reflexivity.
Qed.

Lemma cached_instance_witness :
  let w := run [Call; Settle 0 (Connected 7)] initial in
  run [Call; Settle 0 (Failed "late"); Call] w = w
  /\ connectToDatabase (run [Call; Settle 0 (Failed "late"); Call] w)
     = (w, Returns 7).
Proof.
  intros w.
  apply (proj2 (cached_instance_is_final [Call; Settle 0 (Connected 7)] 7)
           eq_refl [Call; Settle 0 (Failed "late"); Call]).
Defined.

(** *** Callers *)

Lemma call_result_reachable (w : World) :
  Invariant w -> Consistent w ->
  forall later : list Event,
    resultIn (run later (fst (connectToDatabase w))) (snd (connectToDatabase w))
    = nth 0 (promises (run later (fst (connectToDatabase w)))) Pending.
Proof.
  intros Hinv Hcon later. unfold connectToDatabase.
  destruct (conn (cache w)) as [m|] eqn:Hc.
  - cbn [fst snd resultIn].
    rewrite (connected_run later w m Hcon Hc).
    unfold Consistent in Hcon. rewrite Hc in Hcon. rewrite Hcon. reflexivity.
  - unfold Invariant in Hinv.
    destruct (promise (cache w)) as [p|]; cbn [fst snd resultIn].
    + destruct Hinv as (-> & _). reflexivity.
    + destruct Hinv as [-> _]. reflexivity.
Qed.

(** X18. Any two callers get the same outcome, whenever they call: in
    every world that follows, the promises their calls returned are in the
    same state, that of the one attempt. *)
Theorem all_callers_agree :
  forall before between after : list Event,
    let w0 := run before initial in
    let w1 := fst (connectToDatabase w0) in
    let r1 := snd (connectToDatabase w0) in
    let w2 := run between w1 in
    let w3 := fst (connectToDatabase w2) in
    let r2 := snd (connectToDatabase w2) in
    let w4 := run after w3 in
    resultIn w4 r1 = resultIn w4 r2
    /\ resultIn w4 r1 = nth 0 (promises w4) Pending.
Proof.
  intros before between after w0 w1 r1 w2 w3 r2 w4.
  destruct (run_reachable before initial initial_invariant initial_consistent)
    as [Hi0 Hc0]. fold w0 in Hi0, Hc0.
  assert (Hreach : Invariant w2 /\ Consistent w2).
  { apply run_reachable.
    - apply (step_invariant Call w0 Hi0).
    - apply (step_consistent Call w0 Hi0 Hc0). }
  destruct Hreach as [Hi2 Hc2].
  pose proof (call_result_reachable w2 Hi2 Hc2 after) as H2.
  pose proof (call_result_reachable w0 Hi0 Hc0
                (between ++ Call :: after)) as H1.
  rewrite run_app in H1.
  change (run (Call :: after) (run between (fst (connectToDatabase w0))))
    with w4 in H1.
  fold w2 w3 r2 w4 in H2. fold r1 in H1.
  split; [congruence|exact H1].
Qed.

(** *** Reloads of the module *)

Lemma runSessions_loaded (u : string) (sessions : list (list Event)) (w : World) :
  u <> "" ->
  runSessions (Some u) sessions (Some w)
  = EventModel.Ok (Some (run (concat sessions) w)).
Proof.
  intros Hu. revert w. induction sessions as [|t rest IH]; intros w;
    [reflexivity|].
  cbn [runSessions loadModule concat].
  destruct (String.eqb_spec u ""); [contradiction|].
  rewrite IH, run_app. reflexivity.
Qed.

(** X19. Loading the module throws when the connection string is undefined
    or empty; otherwise a process whose module is reloaded between its
    traces ends in the world that one load and the traces in a row end in,
    so that it has made at most one attempt, with at most one in flight. *)
Theorem reloads_are_invisible :
  forall (MONGODB_URI : option string) (first : list Event)
         (rest : list (list Event)),
    (MONGODB_URI = None \/ MONGODB_URI = Some "" ->
     runSessions MONGODB_URI (first :: rest) None
     = EventModel.Throw missingUri)
    /\ (forall u : string,
          MONGODB_URI = Some u -> u <> "" ->
          runSessions MONGODB_URI (first :: rest) None
          = EventModel.Ok (Some (run (concat (first :: rest)) initial))
          /\ attempts (run (concat (first :: rest)) initial) <= 1
          /\ inFlight (run (concat (first :: rest)) initial) <= 1).
Proof.
  intros uri first rest. split.
  - intros [->| ->]; reflexivity.
  - intros u -> Hu. split.
    + cbn [runSessions loadModule].
      destruct (String.eqb_spec u ""); [contradiction|].
      rewrite (runSessions_loaded u rest _ Hu).
      cbn [concat]. rewrite run_app. reflexivity.
    + pose proof (invariant_bounds _
                    (run_invariant (concat (first :: rest)) initial
                       initial_invariant)) as [H1 H2].
      auto.
Qed.

Lemma reloads_are_invisible_witness :
  runSessions (Some "mongodb://localhost/dev")
    [[Call; Call]; [Settle 0 (Connected 7); Call]; [Call]] None
  = EventModel.Ok
      (Some (run [Call; Call; Settle 0 (Connected 7); Call; Call] initial))
  /\ runSessions (Some "") [[Call]] None = EventModel.Throw missingUri.
Proof.
  split.
  - apply (proj1 (proj2 (reloads_are_invisible (Some "mongodb://localhost/dev")
                           [Call; Call]
                           [[Settle 0 (Connected 7); Call]; [Call]])
                    "mongodb://localhost/dev" eq_refl
                    ltac:(discriminate))).
  - apply (proj1 (reloads_are_invisible (Some "") [Call] [])).
    right. reflexivity.
Defined.

End CacheExtras.
